(** * gcs-cache: the two-tier cache coordinator of [src/utils/gcsCache.ts]

    A shallow embedding of the save/restore entry points, the remote
    (GCS) tier and the key resolver, together with [isGCSAvailable] and
    [isExactKeyMatch] of [src/utils/actionUtils.ts].

    The TypeScript code is asynchronous but strictly sequential (every
    external step is awaited), so it is embedded in a state-and-exception
    monad.  The state is the ordered record of the external calls made so
    far plus the temporary archive files currently on disk.  What the
    external collaborators (the storage SDK, the [@actions/cache] service,
    the tar codec, the file system) answer is not decided here: it is read
    from an environment record, and every theorem quantifies over it. *)

From stdpp Require Import base option list strings numbers gmap.

(** ** Values *)

(** [Inputs] of [../constants]: the two action inputs read by this code. *)
Inductive Inputs := GCSBucket | GCSPathPrefix.

(** [CompressionMethod] of [@actions/cache/lib/internal/constants]. *)
Inductive CompressionMethod := Gzip | ZstdWithoutLong | Zstd.

(** A thrown [Error] is identified with its [message]. *)
Definition exn := string.

Inductive outcome (A : Type) : Type :=
| Ret (a : A)
| Throw (e : exn).
Arguments Ret {A} a.
Arguments Throw {A} e.

(** The handle returned by [new Storage()]. *)
Inductive Storage := StorageClient.

Record DownloadOptions := {
  lookupOnly : option bool;
  timeoutInMs : option Z
}.

Record UploadOptions := {
  uploadConcurrency : option Z;
  uploadChunkSize : option Z
}.

(** The [metadata.metadata] object attached to an upload. *)
Record UploadMeta := {
  cacheKey : string;
  createdBy : string;
  createdAt : string
}.

(** Result of an external step that writes the archive file: how the
    step completed, and the size of the file it left at the archive path
    ([None]: it left nothing there). *)
Record Written := {
  completion : outcome unit;
  leaves : option N
}.

(** ** External calls *)

(** One constructor per external call the code makes, with the arguments
    it passes, and [EWarn] for a [core.warning] line.  [core.info] and
    [core.debug] lines are observability only and are not recorded. *)
Inductive Event :=
| EWarn (msg : string)
| ENewStorage
| EBucketExists (bucket : string)
| EFileExists (bucket object : string)
| EGetFiles (bucket pathPrefix : string)
| EDownload (bucket object destination : string)
| EUpload (bucket file destination : string) (meta : UploadMeta)
| EGetCompressionMethod
| EResolvePaths (patterns : list string)
| ECreateTempDirectory
| ECreateTar (folder : string) (sources : list string) (cm : CompressionMethod)
| EListTar (archive : string) (cm : CompressionMethod)
| EExtractTar (archive : string) (cm : CompressionMethod)
| EMkdir (dir : string)
| EStat (file : string)
| EExistsSync (file : string)
| EUnlink (file : string)
| ELocalRestore (paths : list string) (primaryKey : string)
    (restoreKeys : option (list string)) (options : option DownloadOptions)
    (enableCrossOsArchive : option bool)
| ELocalSave (paths : list string) (key : string)
    (options : option UploadOptions) (enableCrossOsArchive : option bool)
| ELocalIsFeatureAvailable.

(** Calls that go to the remote object store. *)
Definition is_remote (e : Event) : bool :=
  match e with
  | EBucketExists _ | EFileExists _ _ | EGetFiles _ _
  | EDownload _ _ _ | EUpload _ _ _ _ => true
  | _ => false
  end.

(** Calls that go to the local cache service. *)
Definition is_local (e : Event) : bool :=
  match e with
  | ELocalRestore _ _ _ _ _ | ELocalSave _ _ _ _ => true
  | _ => false
  end.

(** Calls that leave the machine. *)
Definition is_network (e : Event) : bool := is_remote e || is_local e.

(** ** The environment *)

(** What every external collaborator answers.  The answers are functions
    of the arguments of the call. *)
Record Env := {
  (* @actions/core *)
  getInput : Inputs → outcome string;
  (* @google-cloud/storage *)
  newStorage : outcome unit;
  bucketExists : string → outcome bool;
  fileExists : string → string → outcome bool;
  getFiles : string → string → outcome (list string);
  download : string → string → string → Written;
  upload : string → string → string → UploadMeta → outcome unit;
  (* new Date().toISOString() *)
  isoNow : string;
  (* @actions/cache/lib/internal/cacheUtils *)
  getCompressionMethod : outcome CompressionMethod;
  getCacheFileName : CompressionMethod → string;
  createTempDirectory : outcome string;
  resolvePaths : list string → outcome (list string);
  unlinkFault : string → option exn;
  (* @actions/cache/lib/internal/tar *)
  createTar : string → list string → CompressionMethod → Written;
  listTar : string → CompressionMethod → outcome unit;
  extractTar : string → CompressionMethod → outcome unit;
  (* node fs and path *)
  mkdir : string → outcome unit;
  existsSync : string → outcome bool;
  dirname : string → string;
  pathJoin : string → string → string;
  (* @actions/cache *)
  localRestore : list string → string → option (list string) →
                 option DownloadOptions → option bool → outcome (option string);
  localSave : list string → string → option UploadOptions → option bool →
              outcome Z;
  localIsFeatureAvailable : outcome bool
}.

(** ** The monad *)

(** [trace] is most recent first; [tmpfs] holds the temporary archive
    files on disk with their sizes in bytes. *)
Record World := {
  trace : list Event;
  tmpfs : gmap string N
}.

Definition M (A : Type) : Type := World → outcome A * World.

Definition ret {A} (a : A) : M A := λ w, (Ret a, w).

Definition throw {A} (e : exn) : M A := λ w, (Throw e, w).

Definition bind {A B} (m : M A) (k : A → M B) : M B :=
  λ w, match m w with
       | (Ret a, w') => k a w'
       | (Throw e, w') => (Throw e, w')
       end.

Notation "'let*' x := m 'in' k" := (bind m (λ x, k))
  (at level 10, x name, m at level 100, k at level 200).
Notation "m ;; k" := (bind m (λ _, k))
  (at level 100, k at level 200, right associativity).

(** [try { m } catch (e) { h e }] *)
Definition try_catch {A} (m : M A) (h : exn → M A) : M A :=
  λ w, match m w with
       | (Ret a, w') => (Ret a, w')
       | (Throw e, w') => h e w'
       end.

(** [try { m } finally { f }]: [f] runs on every exit of [m]; an
    exception of [f] replaces the pending result. *)
Definition try_finally {A} (m : M A) (f : M unit) : M A :=
  λ w, match m w with
       | (r, w') =>
           match f w' with
           | (Ret _, w'') => (r, w'')
           | (Throw e, w'') => (Throw e, w'')
           end
       end.

Definition record (e : Event) (w : World) : World :=
  {| trace := e :: trace w; tmpfs := tmpfs w |}.

(** An external call: recorded, answered by the environment. *)
Definition call {A} (e : Event) (answer : outcome A) : M A :=
  λ w, (answer, record e w).

(** An external call that may leave a file of some size at [file]. *)
Definition call_writing (e : Event) (file : string) (r : Written) : M unit :=
  λ w, (completion r,
        {| trace := e :: trace w;
           tmpfs := match leaves r with
                    | Some n => <[file := n]> (tmpfs w)
                    | None => tmpfs w
                    end |}).

(** [core.warning(msg)] *)
Definition warning (msg : string) : M unit := call (EWarn msg) (Ret tt).

(** [require('fs').statSync(file).size] *)
Definition statSize (file : string) : M N :=
  λ w, (match tmpfs w !! file with
        | Some n => Ret n
        | None => Throw ("ENOENT: no such file or directory, stat '" +:+ file +:+ "'")
        end, record (EStat file) w).

(** [utils.unlinkFile(file)]: removes the file, or throws and leaves
    the file system as it was. *)
Definition unlinkFile (env : Env) (file : string) : M unit :=
  λ w, match tmpfs w !! file with
       | None => (Throw ("ENOENT: no such file or directory, unlink '" +:+ file +:+ "'"),
                  record (EUnlink file) w)
       | Some _ =>
           match unlinkFault env file with
           | Some e => (Throw e, record (EUnlink file) w)
           | None => (Ret tt, {| trace := EUnlink file :: trace w;
                                 tmpfs := delete file (tmpfs w) |})
           end
       end.

(** JavaScript truthiness of a [string | undefined] and of a number. *)
Definition truthy_string (s : option string) : bool :=
  match s with
  | Some s => negb (String.eqb s EmptyString)
  | None => false
  end.

Definition truthy_number (n : Z) : bool := negb (n =? 0)%Z.

(** [s || d] on strings. *)
Definition or_else (s d : string) : string :=
  if String.eqb s EmptyString then d else s.

(** [options?.lookupOnly] as a condition. *)
Definition lookupOnly_set (options : option DownloadOptions) : bool :=
  match options with
  | Some o => match lookupOnly o with Some b => b | None => false end
  | None => false
  end.

(** ** [src/utils/actionUtils.ts] *)

(** [core.getInput(name)] *)
Definition core_getInput (env : Env) (name : Inputs) : M string :=
  λ w, (getInput env name, w).

(** [isGCSAvailable]: the bucket input is set.  No API call is made. *)
Definition isGCSAvailable (env : Env) : M bool :=
  try_catch
    (let* bucket := core_getInput env GCSBucket in
     if String.eqb bucket EmptyString then ret false else ret true)
    (λ _, ret false).

Section ExactKeyMatch.

(** [a.localeCompare(b, undefined, { sensitivity: "accent" })] of the
    JavaScript runtime. *)
Variable localeCompareAccent : string → string → Z.

(** [isExactKeyMatch(key, cacheKey)] *)
Definition isExactKeyMatch (key : string) (cacheKey : option string) : bool :=
  match cacheKey with
  | None => false
  | Some ck =>
      if String.eqb ck EmptyString then false
      else (localeCompareAccent ck key =? 0)%Z
  end.

End ExactKeyMatch.

(** ** [src/utils/gcsCache.ts] *)

Definition DEFAULT_PATH_PREFIX : string := "github-cache".

(** [getGCSClient] *)
Definition getGCSClient (env : Env) : M (option Storage) :=
  try_catch
    (call ENewStorage (newStorage env);; ret (Some StorageClient))
    (λ e, warning ("Failed to initialize GCS client: " +:+ e);; ret None).

(** [getGCSPath] *)
Definition getGCSPath (env : Env) (pathPrefix key : string)
    (compressionMethod : CompressionMethod) : string :=
  pathPrefix +:+ "/" +:+ key +:+ "." +:+ getCacheFileName env compressionMethod.

(** [checkFileExists] *)
Definition checkFileExists (env : Env) (storage : Storage)
    (bucket path : string) : M bool :=
  try_catch
    (call (EFileExists bucket path) (fileExists env bucket path))
    (λ e, warning ("Error checking file existence: " +:+ e);; throw e).

(** The [for (const key of keys)] loop of [findFileOnGCS]; [Some p] is
    its [return gcsPath], [None] is falling out of the loop. *)
Fixpoint findFileOnGCS_loop (env : Env) (storage : Storage)
    (bucket pathPrefix : string) (keys : list string)
    (compressionMethod : CompressionMethod) : M (option string) :=
  match keys with
  | [] => ret None
  | key :: keys' =>
      let gcsPath := getGCSPath env pathPrefix key compressionMethod in
      let* found :=
        try_catch
          (let* ex := checkFileExists env storage bucket gcsPath in
           if ex then ret (Some gcsPath) else ret None)
          (λ e, warning ("Error checking if file exists at " +:+ bucket +:+ "/"
                         +:+ gcsPath +:+ ": " +:+ e);;
                ret None) in
      match found with
      | Some p => ret (Some p)
      | None => findFileOnGCS_loop env storage bucket pathPrefix keys'
                  compressionMethod
      end
  end.

(** [findFileOnGCS] *)
Definition findFileOnGCS (env : Env) (storage : Storage)
    (bucket pathPrefix : string) (keys : list string)
    (compressionMethod : CompressionMethod) : M (option string) :=
  let* found := findFileOnGCS_loop env storage bucket pathPrefix keys
                  compressionMethod in
  match found with
  | Some p => ret (Some p)
  | None =>
      try_catch
        (let* _files := call (EGetFiles bucket pathPrefix)
                          (getFiles env bucket pathPrefix) in
         ret tt)
        (λ e, warning ("Error listing files in prefix " +:+ pathPrefix +:+ ": "
                       +:+ e));;
      ret None
  end.

(** The "Verify bucket exists" block shared by both tiers; [Some r] is
    an early [return r] of the enclosing function. *)
Definition verifyBucket {A} (env : Env) (bucket : string) (failure : A)
    : M (option A) :=
  try_catch
    (let* ex := call (EBucketExists bucket) (bucketExists env bucket) in
     if ex then ret None
     else
       warning ("Bucket " +:+ bucket +:+ " does not exist or is not accessible");;
       ret (Some failure))
    (λ e, warning ("Error checking bucket existence: " +:+ e);;
          ret (Some failure)).

(** The [finally] block of both tiers. *)
Definition cleanupArchive (env : Env) (archivePath : string) : M unit :=
  try_catch (unlinkFile env archivePath) (λ _, ret tt).

(** The size check after the archive was written; [Some r] is an early
    [return r]. *)
Definition checkArchive {A} (archivePath emptyMsg errorMsg : string)
    (failure : A) : M (option A) :=
  try_catch
    (let* size := statSize archivePath in
     if (size =? 0)%N then warning emptyMsg;; ret (Some failure)
     else ret None)
    (λ e, warning (errorMsg +:+ e);; ret (Some failure)).

(** The [try] block of [saveToGCS]. *)
Definition saveToGCS_try (env : Env) (bucket pathPrefix key : string)
    (compressionMethod : CompressionMethod) (archiveFolder archivePath : string)
    (cachePaths : list string) : M Z :=
  call_writing (ECreateTar archiveFolder cachePaths compressionMethod)
    archivePath (createTar env archiveFolder cachePaths compressionMethod);;
  call (EListTar archivePath compressionMethod)
    (listTar env archivePath compressionMethod);;
  let* early := checkArchive archivePath
                  "Archive file is empty, no data to upload"
                  "Error checking archive file: " (-1)%Z in
  match early with
  | Some r => ret r
  | None =>
      let gcsPath := getGCSPath env pathPrefix key compressionMethod in
      let meta := {| cacheKey := key;
                     createdBy := "gcs-cache-action";
                     createdAt := isoNow env |} in
      call (EUpload bucket archivePath gcsPath meta)
        (upload env bucket archivePath gcsPath meta);;
      let* ex := call (EFileExists bucket gcsPath)
                   (fileExists env bucket gcsPath) in
      if ex then ret 1%Z
      else
        warning "Upload appeared to succeed but file not found in GCS";;
        ret (-1)%Z
  end.

(** The [catch] block of [saveToGCS]. *)
Definition saveToGCS_catch (e : exn) : M Z :=
  warning ("Error creating or uploading cache: " +:+ e);;
  ret (-1)%Z.

(** [saveToGCS] *)
Definition saveToGCS (env : Env) (paths : list string) (key : string) : M Z :=
  let cacheId := (-1)%Z in
  let* storage := getGCSClient env in
  match storage with
  | None =>
      warning "Failed to initialize GCS client, cannot save cache";;
      ret cacheId
  | Some storage =>
      let* bucket := core_getInput env GCSBucket in
      let* prefixInput := core_getInput env GCSPathPrefix in
      let pathPrefix := or_else prefixInput DEFAULT_PATH_PREFIX in
      let* compressionMethod :=
        call EGetCompressionMethod (getCompressionMethod env) in
      let* early := verifyBucket env bucket (-1)%Z in
      match early with
      | Some r => ret r
      | None =>
          let* cachePaths := call (EResolvePaths paths) (resolvePaths env paths) in
          if (length cachePaths =? 0)%nat then
            throw ("Path Validation Error: Path(s) specified in the action for "
                   +:+ "caching do(es) not exist, hence no cache is being saved.")
          else
            let* archiveFolder :=
              call ECreateTempDirectory (createTempDirectory env) in
            let archivePath :=
              pathJoin env archiveFolder (getCacheFileName env compressionMethod) in
            try_finally
              (try_catch
                 (saveToGCS_try env bucket pathPrefix key compressionMethod
                    archiveFolder archivePath cachePaths)
                 saveToGCS_catch)
              (cleanupArchive env archivePath)
      end
  end.

(** The directory-creation loop of [restoreFromGCS]. *)
Fixpoint ensureDirectories (env : Env) (paths : list string) : M unit :=
  match paths with
  | [] => ret tt
  | cachePath :: paths' =>
      let dirPath := dirname env cachePath in
      try_catch
        (call (EMkdir dirPath) (mkdir env dirPath))
        (λ e, warning ("Failed to create directory " +:+ dirPath +:+ ": " +:+ e));;
      ensureDirectories env paths'
  end.

(** The "Verify extraction succeeded" loop of [restoreFromGCS]; the
    result is the final value of [extractionSucceeded]. *)
Fixpoint verifyExtraction (env : Env) (paths : list string) : M bool :=
  match paths with
  | [] => ret false
  | cachePath :: paths' =>
      let* hit :=
        try_catch
          (call (EExistsSync cachePath) (existsSync env cachePath))
          (λ e, warning ("Error checking path " +:+ cachePath +:+ ": " +:+ e);;
                ret false) in
      if hit then ret true else verifyExtraction env paths'
  end.

(** The [try] block of [restoreFromGCS]. *)
Definition restoreFromGCS_try (env : Env) (paths : list string)
    (bucket gcsPath : string) (compressionMethod : CompressionMethod)
    (archivePath : string) : M (option string) :=
  call_writing (EDownload bucket gcsPath archivePath) archivePath
    (download env bucket gcsPath archivePath);;
  let* early := checkArchive archivePath
                  "Downloaded archive file is empty"
                  "Error checking downloaded archive: "
                  (None : option string) in
  match early with
  | Some r => ret r
  | None =>
      call (EListTar archivePath compressionMethod)
        (listTar env archivePath compressionMethod);;
      let* _archiveFileSize := statSize archivePath in
      call (EExtractTar archivePath compressionMethod)
        (extractTar env archivePath compressionMethod);;
      let* extractionSucceeded := verifyExtraction env paths in
      if extractionSucceeded then ret (Some gcsPath)
      else
        warning "Extraction completed but cache files not found";;
        ret None
  end.

(** The [catch] block of [restoreFromGCS]. *)
Definition restoreFromGCS_catch (e : exn) : M (option string) :=
  warning ("Failed to restore from GCS: " +:+ e);;
  ret None.

(** [restoreFromGCS] *)
Definition restoreFromGCS (env : Env) (paths : list string)
    (primaryKey : string) (restoreKeys : option (list string))
    (options : option DownloadOptions) : M (option string) :=
  let restoreKeys := default [] restoreKeys in
  let* storage := getGCSClient env in
  match storage with
  | None =>
      warning "Failed to initialize GCS client, cannot restore cache";;
      ret None
  | Some storage =>
      let* bucket := core_getInput env GCSBucket in
      let* prefixInput := core_getInput env GCSPathPrefix in
      let pathPrefix := or_else prefixInput DEFAULT_PATH_PREFIX in
      let* compressionMethod :=
        call EGetCompressionMethod (getCompressionMethod env) in
      let* early := verifyBucket env bucket (None : option string) in
      match early with
      | Some r => ret r
      | None =>
          ensureDirectories env paths;;
          let* archiveFolder :=
            call ECreateTempDirectory (createTempDirectory env) in
          let archivePath :=
            pathJoin env archiveFolder (getCacheFileName env compressionMethod) in
          let keys := primaryKey :: restoreKeys in
          let* found := findFileOnGCS env storage bucket pathPrefix keys
                          compressionMethod in
          match found with
          | None => ret None
          | Some gcsPath =>
              (* [!gcsPath] also holds of the empty string *)
              if String.eqb gcsPath EmptyString then ret None
              else if lookupOnly_set options then ret (Some gcsPath)
              else
                try_finally
                  (try_catch
                     (restoreFromGCS_try env paths bucket gcsPath
                        compressionMethod archivePath)
                     restoreFromGCS_catch)
                  (cleanupArchive env archivePath)
          end
      end
  end.

(** [restoreCache] *)
Definition restoreCache (env : Env) (paths : list string) (primaryKey : string)
    (restoreKeys : option (list string)) (options : option DownloadOptions)
    (enableCrossOsArchive : option bool) : M (option string) :=
  let* available := isGCSAvailable env in
  let* early :=
    if available then
      try_catch
        (let* result := restoreFromGCS env paths primaryKey restoreKeys options in
         if truthy_string result then ret (Some result) else ret None)
        (λ e, warning ("Failed to restore from GCS: " +:+ e);; ret None)
    else ret None in
  match early with
  | Some r => ret r
  | None =>
      call (ELocalRestore paths primaryKey restoreKeys options enableCrossOsArchive)
        (localRestore env paths primaryKey restoreKeys options enableCrossOsArchive)
  end.

(** [saveCache] *)
Definition saveCache (env : Env) (paths : list string) (key : string)
    (options : option UploadOptions) (enableCrossOsArchive : option bool) : M Z :=
  let* available := isGCSAvailable env in
  let* early :=
    if available then
      try_catch
        (let* result := saveToGCS env paths key in
         if truthy_number result then ret (Some result)
         else
           warning "Failed to save to GCS, falling back to GitHub cache";;
           ret None)
        (λ e, warning ("Failed to save to GCS: " +:+ e);; ret None)
    else ret None in
  match early with
  | Some r => ret r
  | None =>
      call (ELocalSave paths key options enableCrossOsArchive)
        (localSave env paths key options enableCrossOsArchive)
  end.

(** [cache.isFeatureAvailable()] of [@actions/cache]: an external call
    like the others, which may throw. *)
Definition cache_isFeatureAvailable (env : Env) : M bool :=
  call ELocalIsFeatureAvailable (localIsFeatureAvailable env).

(** [isFeatureAvailable]: [||] evaluates its right operand only when
    the left one is false. *)
Definition isFeatureAvailable (env : Env) : M bool :=
  let* gcs := isGCSAvailable env in
  if gcs then ret true else cache_isFeatureAvailable env.

(** ** Sample environments *)

Module Samples.

(** [getCacheFileName] of [@actions/cache]. *)
Definition cacheFileName (cm : CompressionMethod) : string :=
  match cm with
  | Gzip => "cache.tgz"
  | _ => "cache.tzst"
  end.

Definition done_leaving (size : option N) : Written :=
  {| completion := Ret tt; leaves := size |}.

(** A bucket that holds exactly [objects]. *)
Definition holding (objects : list string) (object : string) : outcome bool :=
  Ret (bool_decide (object ∈ objects)).

(** A runner on which every step succeeds unless a parameter says
    otherwise: [bucket] is the bucket input, [reachable] the answer of the
    bucket probe, [probe] the answer of an object probe, [resolved] what
    the path patterns resolve to, [tarred] and [fetched] what archiving
    and downloading leave on disk, [unlinkError] the failure of the final
    unlink, [savedLocally] and [restoredLocally] the answers of the local
    cache service. *)
Definition runner (bucket : string) (reachable : outcome bool)
    (probe : string → outcome bool) (resolved : list string)
    (tarred fetched : Written) (unlinkError : option exn)
    (savedLocally : outcome Z) (restoredLocally : outcome (option string))
    : Env :=
  {| getInput := λ i, match i with
                      | GCSBucket => Ret bucket
                      | GCSPathPrefix => Ret EmptyString
                      end;
     newStorage := Ret tt;
     bucketExists := λ _, reachable;
     fileExists := λ _ o, probe o;
     getFiles := λ _ _, Ret [];
     download := λ _ _ _, fetched;
     upload := λ _ _ _ _, Ret tt;
     isoNow := "2025-01-01T00:00:00.000Z";
     getCompressionMethod := Ret Zstd;
     getCacheFileName := cacheFileName;
     createTempDirectory := Ret "/tmp/a1";
     resolvePaths := λ _, Ret resolved;
     unlinkFault := λ _, unlinkError;
     createTar := λ _ _ _, tarred;
     listTar := λ _ _, Ret tt;
     extractTar := λ _ _, Ret tt;
     mkdir := λ _, Ret tt;
     existsSync := λ _, Ret true;
     dirname := λ _, ".";
     pathJoin := λ a b, a +:+ "/" +:+ b;
     localRestore := λ _ _ _ _ _, restoredLocally;
     localSave := λ _ _ _ _, savedLocally;
     localIsFeatureAvailable := Ret true |}.

Definition idle : World := {| trace := []; tmpfs := ∅ |}.

Definition validationError : exn :=
  "Path Validation Error: Path(s) specified in the action for "
  +:+ "caching do(es) not exist, hence no cache is being saved.".

(** Everything works; the bucket already holds the cache of key [k]. *)
Definition healthy : Env :=
  runner "cache-bucket" (Ret true) (holding ["github-cache/k.cache.tzst"]) ["x"]
    (done_leaving (Some 10%N)) (done_leaving (Some 10%N)) None
    (Ret 42%Z) (Ret (Some "k")).

(** No bucket input. *)
Definition unset : Env :=
  runner EmptyString (Ret true) (holding []) ["x"]
    (done_leaving (Some 10%N)) (done_leaving (Some 10%N)) None
    (Ret 42%Z) (Ret (Some "k")).

(** The bucket input names a bucket that does not exist, as in the
    [test-gcs-fallback-save] job of the workflow; the local cache service
    would save under id 42. *)
Definition missingBucket : Env :=
  runner "non-existent-bucket-for-test" (Ret false) (holding [])
    ["test-fallback-cache"]
    (done_leaving (Some 10%N)) (done_leaving None) None
    (Ret 42%Z) (Ret None).

(** The path patterns match nothing; the local cache service rejects
    the save for the same reason. *)
Definition emptyPaths : Env :=
  runner "cache-bucket" (Ret true) (holding []) []
    (done_leaving None) (done_leaving None) None
    (Throw validationError) (Ret None).

(** The same without a bucket input. *)
Definition emptyPathsUnset : Env :=
  runner EmptyString (Ret true) (holding []) []
    (done_leaving None) (done_leaving None) None
    (Throw validationError) (Ret None).

(** The bucket holds the cache of [k2] and nothing else. *)
Definition onlySecond : Env :=
  runner "cache-bucket" (Ret true) (holding ["github-cache/k2.cache.tzst"]) ["x"]
    (done_leaving (Some 10%N)) (done_leaving (Some 10%N)) None
    (Ret 42%Z) (Ret None).

(** The probe of [k1] fails; the cache of [k2] exists. *)
Definition flaky : Env :=
  runner "cache-bucket" (Ret true)
    (λ o, if String.eqb o "github-cache/k1.cache.tzst" then Throw "ECONNRESET"
          else holding ["github-cache/k2.cache.tzst"] o)
    ["x"]
    (done_leaving (Some 10%N)) (done_leaving (Some 10%N)) None
    (Ret 42%Z) (Ret None).

(** Archiving and downloading leave zero-byte files. *)
Definition emptyArchive : Env :=
  runner "cache-bucket" (Ret true) (holding ["github-cache/k.cache.tzst"]) ["x"]
    (done_leaving (Some 0%N)) (done_leaving (Some 0%N)) None
    (Ret 42%Z) (Ret None).

(** The archive cannot be unlinked. *)
Definition busyArchive : Env :=
  runner "cache-bucket" (Ret true) (holding ["github-cache/k.cache.tzst"]) ["x"]
    (done_leaving (Some 10%N)) (done_leaving (Some 10%N))
    (Some "EBUSY: resource busy or locked, unlink")
    (Ret 42%Z) (Ret None).

(** The bucket holds the cache of key [foo]; the primary key of the
    restore below is spelled like that object's path. *)
Definition pathLikeKey : Env :=
  runner "cache-bucket" (Ret true) (holding ["github-cache/foo.cache.tzst"]) ["x"]
    (done_leaving (Some 10%N)) (done_leaving (Some 10%N)) None
    (Ret 42%Z) (Ret None).

End Samples.

(** ** Vocabulary of the statements *)

(** The objects probed by [exists()] calls on files, most recent first. *)
Definition probes (tr : list Event) : list string :=
  omap (λ e, match e with EFileExists _ o => Some o | _ => None end) tr.

(** The candidates a first-match scan looks at: each one in order, up to
    and including the first hit. *)
Fixpoint scanned (hit : string → bool) (candidates : list string) : list string :=
  match candidates with
  | [] => []
  | c :: cs => c :: (if hit c then [] else scanned hit cs)
  end.

(** The object is reported to exist: its probe returns [true]. *)
Definition present (env : Env) (bucket object : string) : bool :=
  match fileExists env bucket object with
  | Ret true => true
  | _ => false
  end.

(** The resolver as the specification words it: the first candidate
    path, in list order, that exists. *)
Definition firstExisting (env : Env) (bucket pathPrefix : string)
    (cm : CompressionMethod) (keys : list string) : option string :=
  List.find (present env bucket) (map (λ key, getGCSPath env pathPrefix key cm) keys).

(** [emits P m]: whatever the state, running [m] only adds calls that
    satisfy [P] to the trace. *)
Definition emits {A} (P : Event → Prop) (m : M A) : Prop :=
  ∀ w, ∃ new, trace (m w).2 = new ++ trace w ∧ Forall P new.

(** [keeps_files m]: running [m] leaves the temporary files alone. *)
Definition keeps_files {A} (m : M A) : Prop :=
  ∀ w, tmpfs (m w).2 = tmpfs w.

(** A call of the remote tier: anything but a call of the local cache
    service. *)
Definition not_local (e : Event) : Prop := is_local e = false.

(** The cache service of [@actions/cache] used alone, without the remote
    tier: what the specification calls the local-only cache service. *)
Module LocalOnly.

Definition restoreCache (env : Env) (paths : list string) (primaryKey : string)
    (restoreKeys : option (list string)) (options : option DownloadOptions)
    (enableCrossOsArchive : option bool) : M (option string) :=
  call (ELocalRestore paths primaryKey restoreKeys options enableCrossOsArchive)
    (localRestore env paths primaryKey restoreKeys options enableCrossOsArchive).

Definition saveCache (env : Env) (paths : list string) (key : string)
    (options : option UploadOptions) (enableCrossOsArchive : option bool) : M Z :=
  call (ELocalSave paths key options enableCrossOsArchive)
    (localSave env paths key options enableCrossOsArchive).

End LocalOnly.

(** The bucket input is set. *)
Definition bucketConfigured (env : Env) (bucket : string) : Prop :=
  getInput env GCSBucket = Ret bucket ∧ bucket ≠ EmptyString.

(** Where both tiers put their temporary archive. *)
Definition archivePathIn (env : Env) (archiveFolder : string)
    (cm : CompressionMethod) : string :=
  pathJoin env archiveFolder (getCacheFileName env cm).

(** The remote tier got past its set-up: the client was created, the
    inputs and the compression method were read, and the bucket probe
    answered [true]. *)
Record TierReady (env : Env) (bucket prefixInput : string)
    (cm : CompressionMethod) : Prop := {
  ready_client : newStorage env = Ret tt;
  ready_bucket : getInput env GCSBucket = Ret bucket;
  ready_prefix : getInput env GCSPathPrefix = Ret prefixInput;
  ready_method : getCompressionMethod env = Ret cm;
  ready_exists : bucketExists env bucket = Ret true
}.

(** The state once the tier is ready. *)
Definition readied (bucket : string) (w : World) : World :=
  record (EBucketExists bucket) (record EGetCompressionMethod (record ENewStorage w)).

(** A remote save that reaches its [try] block: the tier is ready, the
    patterns resolve to at least one path and the temporary directory was
    created. *)
Record SaveReachesArchive (env : Env) (paths : list string)
    (bucket prefixInput : string) (cm : CompressionMethod)
    (cachePaths : list string) (archiveFolder : string) : Prop := {
  save_ready : TierReady env bucket prefixInput cm;
  save_paths : resolvePaths env paths = Ret cachePaths;
  save_nonempty : cachePaths ≠ [];
  save_folder : createTempDirectory env = Ret archiveFolder
}.

(** The state in which the [try] block of [saveToGCS] starts. *)
Definition saveStarted (paths : list string) (bucket : string) (w : World) : World :=
  record ECreateTempDirectory (record (EResolvePaths paths) (readied bucket w)).

(** A remote restore that reaches its [try] block: the tier is ready, the
    temporary directory was created, the resolver found [gcsPath] and the
    caller did not ask for a lookup only. *)
Record RestoreReachesDownload (env : Env) (primaryKey : string)
    (restoreKeys : option (list string)) (options : option DownloadOptions)
    (bucket prefixInput : string) (cm : CompressionMethod)
    (archiveFolder gcsPath : string) : Prop := {
  restore_ready : TierReady env bucket prefixInput cm;
  restore_folder : createTempDirectory env = Ret archiveFolder;
  restore_found :
    firstExisting env bucket (or_else prefixInput DEFAULT_PATH_PREFIX) cm
      (primaryKey :: default [] restoreKeys) = Some gcsPath;
  restore_full : lookupOnly_set options = false
}.

(** The state in which the resolver of [restoreFromGCS] has answered. *)
Definition restoreResolved (env : Env) (paths : list string) (primaryKey : string)
    (restoreKeys : option (list string)) (bucket prefixInput : string)
    (cm : CompressionMethod) (w : World) : World :=
  (findFileOnGCS env StorageClient bucket (or_else prefixInput DEFAULT_PATH_PREFIX)
     (primaryKey :: default [] restoreKeys) cm
     (record ECreateTempDirectory
        (ensureDirectories env paths (readied bucket w)).2)).2.


(** What is assumed of the runtime's comparison at accent sensitivity:
    it compares collation weights, every character contributes its own
    weights, and the slash is not ignored. *)
Record CollatesByWeights {W : Type} (localeCompareAccent : string → string → Z)
    (weights : string → list W) : Prop := {
  weights_app : ∀ a b, weights (a +:+ b) = weights a ++ weights b;
  weights_slash : weights "/" ≠ [];
  compare_zero : ∀ a b, localeCompareAccent a b = 0%Z → weights a = weights b
}.

(** A collation on ASCII strings that ignores case and nothing else,
    standing for the runtime's [localeCompare] at accent sensitivity. *)
Module AsciiCollation.

Definition lower (c : Ascii.ascii) : Ascii.ascii :=
  let n := Ascii.N_of_ascii c in
  if (65 <=? n)%N && (n <=? 90)%N then Ascii.ascii_of_N (n + 32) else c.

Fixpoint foldCase (s : string) : string :=
  match s with
  | EmptyString => EmptyString
  | String c s' => String (lower c) (foldCase s')
  end.

Definition weights (s : string) : list Ascii.ascii :=
  String.list_ascii_of_string (foldCase s).

Definition localeCompareAccent (a b : string) : Z :=
  match String.compare (foldCase a) (foldCase b) with
  | Eq => 0
  | Lt => -1
  | Gt => 1
  end.

End AsciiCollation.

(** The statements of the specification that the code does not meet, as
    predicates of one call. *)
Module Claimed.

(** A save whose patterns resolve to nothing fails without any network
    call. *)
Definition save_fails_fast (env : Env) (paths : list string) (key : string)
    (options : option UploadOptions) (x : option bool) (w : World) : Prop :=
  resolvePaths env paths = Ret [] →
  ∃ e new,
    (saveCache env paths key options x w).1 = Throw e ∧
    trace (saveCache env paths key options x w).2 = new ++ trace w ∧
    Forall (λ ev, is_network ev = false) new.

(** A remote save with a configured bucket whose tier fails with a
    non-positive id ends with the local tier's result. *)
Definition save_falls_back (env : Env) (paths : list string) (key : string)
    (options : option UploadOptions) (x : option bool) (w : World) : Prop :=
  ∀ n, (saveToGCS env paths key w).1 = Ret n → (n <= 0)%Z →
    (saveCache env paths key options x w).1 = localSave env paths key options x.


(** A value returned from the remote tier never equals the primary key
    and never matches it exactly. *)
Definition restored_value_is_not_primaryKey (env : Env) (paths : list string)
    (primaryKey : string) (restoreKeys : option (list string))
    (options : option DownloadOptions) (x : option bool) (w : World) : Prop :=
  ∀ value,
    (restoreFromGCS env paths primaryKey restoreKeys options w).1 = Ret (Some value) →
    (restoreCache env paths primaryKey restoreKeys options x w).1 = Ret (Some value) ∧
    value ≠ primaryKey ∧
    isExactKeyMatch AsciiCollation.localeCompareAccent primaryKey (Some value) = false.

End Claimed.

(** ** More vocabulary: what each tier may call *)

(** The directories handed to [mkdir], most recent first. *)
Definition mkdirs (tr : list Event) : list string :=
  omap (λ e, match e with EMkdir d => Some d | _ => None end) tr.

(** The prefixes listed with [getFiles], most recent first. *)
Definition listed (tr : list Event) : list string :=
  omap (λ e, match e with EGetFiles _ p => Some p | _ => None end) tr.

(** The bucket input is set and not empty: [isGCSAvailable] without its
    monad. *)
Definition configured (env : Env) : bool :=
  match getInput env GCSBucket with
  | Ret bucket => negb (String.eqb bucket EmptyString)
  | Throw _ => false
  end.

(** The calls a restore may make: warnings, the set-up, read-only calls
    on the bucket, the download with its checks and extraction, the
    unlink of the archive and the local restore. *)
Definition restore_call (e : Event) : bool :=
  match e with
  | EUpload _ _ _ _ | EResolvePaths _ | ECreateTar _ _ _ | ELocalSave _ _ _ _
  | ELocalIsFeatureAvailable => false
  | _ => true
  end.

(** The calls a save may make: warnings, the set-up, path resolution,
    archiving, the upload with its probe, the unlink of the archive and
    the local save. *)
Definition save_call (e : Event) : bool :=
  match e with
  | EGetFiles _ _ | EDownload _ _ _ | EExtractTar _ _ | EMkdir _
  | EExistsSync _ | ELocalRestore _ _ _ _ _ | ELocalIsFeatureAvailable => false
  | _ => true
  end.

(** The calls a lookup-only restore may make on the remote tier. *)
Definition lookup_call (e : Event) : bool :=
  match e with
  | EWarn _ | ENewStorage | EGetCompressionMethod | EBucketExists _
  | EMkdir _ | ECreateTempDirectory | EFileExists _ _ | EGetFiles _ _ => true
  | _ => false
  end.


(** ** More of [src/utils/actionUtils.ts] *)

(** What the functions below read besides the two inputs of [Env]: the
    server URL of the process environment, the host name the URL parser
    finds in a URL ([new URL(s).hostname], which throws on a string that
    is not a URL), and the value [core.getInput(name, options)] returns
    for any input name. *)
Record InputOptions := {
  required : option bool;
  trimWhitespace : option bool
}.

Record Runtime := {
  GITHUB_SERVER_URL : option string;
  urlHostname : string → outcome string;
  inputNamed : string → option InputOptions → outcome string
}.

(** Strings are byte strings.  The functions below are the JavaScript
    string methods on ASCII text: the white space they know is TAB, LF,
    VT, FF, CR and space, and the letters they change are [A-Z], [a-z]. *)
Definition LF : Ascii.ascii := Ascii.ascii_of_nat 10.

(** The exclamation mark. *)
Definition BANG : Ascii.ascii := Ascii.ascii_of_nat 33.

Definition isWhiteSpace (c : Ascii.ascii) : bool :=
  let n := Ascii.N_of_ascii c in
  ((9 <=? n)%N && (n <=? 13)%N) || (n =? 32)%N.

(** [s.trimStart()] *)
Fixpoint trimStart (s : string) : string :=
  match s with
  | EmptyString => EmptyString
  | String c s' => if isWhiteSpace c then trimStart s' else s
  end.

(** [s.trimEnd()] *)
Fixpoint trimEnd (s : string) : string :=
  match s with
  | EmptyString => EmptyString
  | String c s' =>
      match trimEnd s' with
      | EmptyString => if isWhiteSpace c then EmptyString else String c EmptyString
      | t => String c t
      end
  end.

(** [s.trim()] *)
Definition trim (s : string) : string := trimEnd (trimStart s).

Definition upper (c : Ascii.ascii) : Ascii.ascii :=
  let n := Ascii.N_of_ascii c in
  if (97 <=? n)%N && (n <=? 122)%N then Ascii.ascii_of_N (n - 32) else c.

(** [s.toUpperCase()] *)
Fixpoint toUpperCase (s : string) : string :=
  match s with
  | EmptyString => EmptyString
  | String c s' => String (upper c) (toUpperCase s')
  end.

(** [s.toLowerCase()] *)
Definition toLowerCase (s : string) : string := AsciiCollation.foldCase s.

(** [s.endsWith(suffix)] *)
Fixpoint endsWith (s suffix : string) : bool :=
  if String.eqb s suffix then true
  else match s with
       | EmptyString => false
       | String _ s' => endsWith s' suffix
       end.

(** [s.split(sep)] for a separator of one character. *)
Fixpoint split (sep : Ascii.ascii) (s : string) : list string :=
  match s with
  | EmptyString => [EmptyString]
  | String c s' =>
      if Ascii.eqb c sep then EmptyString :: split sep s'
      else match split sep s' with
           | piece :: pieces => String c piece :: pieces
           | [] => [String c EmptyString]
           end
  end.

(** [s.replace(/^!\s+/, "!")] *)
Definition replaceLeadingBang (s : string) : string :=
  match s with
  | String b (String c rest) =>
      if Ascii.eqb b BANG && isWhiteSpace c then String BANG (trimStart rest)
      else s
  | _ => s
  end.

(** [core.getInput(name, options)] for any input name. *)
Definition core_getInput_named (rt : Runtime) (name : string)
    (options : option InputOptions) : M string :=
  λ w, (inputNamed rt name options, w).

(** [core.info(msg)]: not recorded. *)
Definition core_info (msg : string) : M unit := ret tt.

(** [new URL(s).hostname] *)
Definition new_URL_hostname (rt : Runtime) (s : string) : M string :=
  λ w, (urlHostname rt s, w).

(** [isGhes] *)
Definition isGhes (rt : Runtime) : M bool :=
  let* ghUrlHostname :=
    new_URL_hostname rt
      (or_else (default EmptyString (GITHUB_SERVER_URL rt)) "https://github.com") in
  let hostname := toUpperCase (trimEnd ghUrlHostname) in
  let isGitHubHost := String.eqb hostname "GITHUB.COM" in
  let isGitHubEnterpriseCloudHost := endsWith hostname ".GHE.COM" in
  let isLocalHost := endsWith hostname ".LOCALHOST" in
  ret (negb isGitHubHost && negb isGitHubEnterpriseCloudHost && negb isLocalHost).

(** [logWarning] *)
Definition logWarning (message : string) : M unit :=
  let warningPrefix := "[warning]" in
  core_info (warningPrefix +:+ message).

(** The pipeline of [getInputAsArray] on the value of the input. *)
Definition getInputAsArray_value (value : string) : list string :=
  List.filter (λ x, negb (String.eqb x EmptyString))
    (map (λ s, trim (replaceLeadingBang s)) (split LF value)).

(** [getInputAsArray] *)
Definition getInputAsArray (rt : Runtime) (name : string)
    (options : option InputOptions) : M (list string) :=
  let* value := core_getInput_named rt name options in
  ret (getInputAsArray_value value).

(** The test of [getInputAsBool] on the value of the input. *)
Definition getInputAsBool_value (result : string) : bool :=
  String.eqb (toLowerCase result) "true".

(** [getInputAsBool] *)
Definition getInputAsBool (rt : Runtime) (name : string)
    (options : option InputOptions) : M bool :=
  let* result := core_getInput_named rt name options in
  ret (getInputAsBool_value result).

(** [isCacheFeatureAvailable] *)
Definition isCacheFeatureAvailable (rt : Runtime) (env : Env) : M bool :=
  let* gcs := isGCSAvailable env in
  if gcs then ret true
  else
    let* localAvailable := cache_isFeatureAvailable env in
    if localAvailable then ret true
    else
      let* ghes := isGhes rt in
      if ghes then
        logWarning
          ("Cache action is only supported on GHES version >= 3.5. If you are on "
           +:+ "version >=3.5 Please check with GHES admin if Actions cache service "
           +:+ "is enabled or not." +:+ String LF
           ("Otherwise please upgrade to GHES version >= 3.5 and If you are also "
            +:+ "using Github Connect, please unretire the actions/cache namespace "
            +:+ "before upgrade (see https://docs.github.com/en/enterprise-server@3.5"
            +:+ "/admin/github-actions/managing-access-to-actions-from-githubcom"
            +:+ "/enabling-automatic-access-to-githubcom-actions-using-github-connect"
            +:+ "#automatic-retirement-of-namespaces-for-actions-accessed-on-githubcom)"));;
        ret false
      else
        logWarning
          ("An internal error has occurred in cache backend. Please check "
           +:+ "https://www.githubstatus.com/ for any ongoing issue in actions.");;
        ret false.

(** The URL [isGhes] parses. *)
Definition serverUrl (rt : Runtime) : string :=
  or_else (default EmptyString (GITHUB_SERVER_URL rt)) "https://github.com".

(** An entry has no white space at either end, no line feed inside, and
    no blank after a leading exclamation mark. *)
Fixpoint mentions (c : Ascii.ascii) (s : string) : bool :=
  match s with
  | EmptyString => false
  | String d s' => Ascii.eqb d c || mentions c s'
  end.

Definition cleanEntry (e : string) : Prop :=
  e ≠ EmptyString ∧ trim e = e ∧ mentions LF e = false ∧ replaceLeadingBang e = e.

(** The text is ASCII: every character code is below 128.  On such text
    the string functions above are the JavaScript ones. *)
Fixpoint asciiText (s : string) : bool :=
  match s with
  | EmptyString => true
  | String c s' => (Ascii.N_of_ascii c <? 128)%N && asciiText s'
  end.

(** A runtime for the examples: the parser finds the host of an
    [https://] URL without path, and every input has the value [value]. *)
Definition sampleRuntime (server : option string) (value : string) : Runtime :=
  {| GITHUB_SERVER_URL := server;
     urlHostname := λ s,
       if String.prefix "https://" s then Ret (String.substring 8 (String.length s - 8) s)
       else Throw "Invalid URL";
     inputNamed := λ _ _, Ret value |}.

(** [returns Q m]: whenever [m] returns a value, the value satisfies [Q]. *)
Definition returns {A} (Q : A → Prop) (m : M A) : Prop :=
  ∀ w a, (m w).1 = Ret a → Q a.

(** An upload made while saving [key] goes to the object of [key], from
    the archive path, with [key] in its metadata. *)
Definition uploads_only (env : Env) (key : string) (e : Event) : Prop :=
  match e with
  | EUpload bucket file destination meta =>
      getInput env GCSBucket = Ret bucket ∧
      cacheKey meta = key ∧ createdBy meta = "gcs-cache-action" ∧
      ∃ prefixInput cm dir,
        getInput env GCSPathPrefix = Ret prefixInput ∧
        getCompressionMethod env = Ret cm ∧
        createTempDirectory env = Ret dir ∧
        file = archivePathIn env dir cm ∧
        destination = getGCSPath env (or_else prefixInput DEFAULT_PATH_PREFIX) key cm
  | _ => True
  end.

(** A download made while restoring [keys] fetches the object of one of
    the keys, one that a probe reported to exist, into the archive path. *)
Definition downloads_only (env : Env) (keys : list string) (e : Event) : Prop :=
  match e with
  | EDownload bucket object destination =>
      getInput env GCSBucket = Ret bucket ∧
      fileExists env bucket object = Ret true ∧
      ∃ prefixInput cm dir key,
        getInput env GCSPathPrefix = Ret prefixInput ∧
        getCompressionMethod env = Ret cm ∧
        createTempDirectory env = Ret dir ∧
        destination = archivePathIn env dir cm ∧
        key ∈ keys ∧
        object = getGCSPath env (or_else prefixInput DEFAULT_PATH_PREFIX) key cm
  | _ => True
  end.

(** A file-system or tar call made by a remote tier names the tier's
    own archive: the cache file inside the temporary directory the tier
    created, with the tier's compression method. *)
Definition names_archive (env : Env) (e : Event) : Prop :=
  match e with
  | EStat file | EUnlink file =>
      ∃ dir cm,
        createTempDirectory env = Ret dir ∧ getCompressionMethod env = Ret cm ∧
        file = archivePathIn env dir cm
  | EListTar archive cm | EExtractTar archive cm =>
      ∃ dir,
        createTempDirectory env = Ret dir ∧ getCompressionMethod env = Ret cm ∧
        archive = archivePathIn env dir cm
  | ECreateTar folder _ cm =>
      createTempDirectory env = Ret folder ∧ getCompressionMethod env = Ret cm
  | _ => True
  end.




(** The environment with another answer of [cache.isFeatureAvailable()]. *)
Definition withLocalAvailability (answer : outcome bool) (env : Env) : Env :=
  {| getInput := getInput env;
     newStorage := newStorage env;
     bucketExists := bucketExists env;
     fileExists := fileExists env;
     getFiles := getFiles env;
     download := download env;
     upload := upload env;
     isoNow := isoNow env;
     getCompressionMethod := getCompressionMethod env;
     getCacheFileName := getCacheFileName env;
     createTempDirectory := createTempDirectory env;
     resolvePaths := resolvePaths env;
     unlinkFault := unlinkFault env;
     createTar := createTar env;
     listTar := listTar env;
     extractTar := extractTar env;
     mkdir := mkdir env;
     existsSync := existsSync env;
     dirname := dirname env;
     pathJoin := pathJoin env;
     localRestore := localRestore env;
     localSave := localSave env;
     localIsFeatureAvailable := answer |}.

(** Archiving reports no error but leaves no file. *)
Definition tarLeavesNothing : Env :=
  Samples.runner "cache-bucket" (Ret true)
    (Samples.holding ["github-cache/k.cache.tzst"]) ["x"]
    (Samples.done_leaving None) (Samples.done_leaving (Some 10%N)) None
    (Ret 42%Z) (Ret None).

(** The download reports no error but leaves no file. *)
Definition downloadLeavesNothing : Env :=
  Samples.runner "cache-bucket" (Ret true)
    (Samples.holding ["github-cache/k.cache.tzst"]) ["x"]
    (Samples.done_leaving (Some 10%N)) (Samples.done_leaving None) None
    (Ret 42%Z) (Ret None).

(** * Verification *)

(** ** Running the monad *)

Ltac unfold_monad :=
  unfold try_finally, try_catch, bind, ret, throw, warning, call, call_writing,
    core_getInput in *.

Section Emits.

Context {A B : Type} (P : Event → Prop).

Lemma emits_ret (a : A) : emits P (ret a).
Proof. intros w. exists []. by split. Qed.

Lemma emits_throw (e : exn) : emits P (throw e : M A).
Proof. intros w. exists []. by split. Qed.

Lemma emits_bind (m : M A) (k : A → M B) :
  emits P m → (∀ a, emits P (k a)) → emits P (bind m k).
Proof.
  intros Hm Hk w. unfold bind.
  destruct (Hm w) as (n1 & E1 & F1). destruct (m w) as [[a|e] w1]; simpl in *.
  - destruct (Hk a w1) as (n2 & E2 & F2). exists (n2 ++ n1).
    rewrite E2, E1, (assoc_L (++)). split; [done | by apply Forall_app].
  - by exists n1.
Qed.

Lemma emits_try_catch (m : M A) (h : exn → M A) :
  emits P m → (∀ e, emits P (h e)) → emits P (try_catch m h).
Proof.
  intros Hm Hh w. unfold try_catch.
  destruct (Hm w) as (n1 & E1 & F1). destruct (m w) as [[a|e] w1]; simpl in *.
  - by exists n1.
  - destruct (Hh e w1) as (n2 & E2 & F2). exists (n2 ++ n1).
    rewrite E2, E1, (assoc_L (++)). split; [done | by apply Forall_app].
Qed.

Lemma emits_try_finally (m : M A) (f : M unit) :
  emits P m → emits P f → emits P (try_finally m f).
Proof.
  intros Hm Hf w. unfold try_finally.
  destruct (Hm w) as (n1 & E1 & F1). destruct (m w) as [r w1]; simpl in *.
  destruct (Hf w1) as (n2 & E2 & F2). exists (n2 ++ n1).
  destruct (f w1) as [[[]|e] w2]; simpl in *;
    (rewrite E2, E1, (assoc_L (++)); split; [done | by apply Forall_app]).
Qed.

Lemma emits_call (e : Event) (r : outcome A) : P e → emits P (call e r).
Proof. intros He w. exists [e]. split; [done | by constructor]. Qed.

End Emits.

Lemma emits_call_writing P e file r : P e → emits P (call_writing e file r).
Proof. intros He w. exists [e]. split; [done | by constructor]. Qed.

Lemma emits_warning P msg : P (EWarn msg) → emits P (warning msg).
Proof. apply emits_call. Qed.

Lemma emits_statSize P file : P (EStat file) → emits P (statSize file).
Proof. intros He w. exists [EStat file]. split; [done | by constructor]. Qed.

Lemma emits_unlinkFile P env file : P (EUnlink file) → emits P (unlinkFile env file).
Proof.
  intros He w. exists [EUnlink file]. unfold unlinkFile.
  split; [| by constructor]. by repeat case_match.
Qed.

Lemma emits_core_getInput P env name : emits P (core_getInput env name).
Proof. intros w. exists []. by split. Qed.

Section KeepsFiles.

Context {A B : Type}.

Lemma keeps_ret (a : A) : keeps_files (ret a).
Proof. done. Qed.

Lemma keeps_throw (e : exn) : keeps_files (throw e : M A).
Proof. done. Qed.

Lemma keeps_bind (m : M A) (k : A → M B) :
  keeps_files m → (∀ a, keeps_files (k a)) → keeps_files (bind m k).
Proof.
  intros Hm Hk w. unfold bind. specialize (Hm w).
  destruct (m w) as [[a|e] w1]; simpl in *; [| done]. by rewrite Hk.
Qed.

Lemma keeps_try_catch (m : M A) (h : exn → M A) :
  keeps_files m → (∀ e, keeps_files (h e)) → keeps_files (try_catch m h).
Proof.
  intros Hm Hh w. unfold try_catch. specialize (Hm w).
  destruct (m w) as [[a|e] w1]; simpl in *; [done |]. by rewrite Hh.
Qed.

Lemma keeps_call (e : Event) (r : outcome A) : keeps_files (call e r).
Proof. done. Qed.

End KeepsFiles.

Lemma keeps_warning msg : keeps_files (warning msg).
Proof. done. Qed.

Lemma keeps_core_getInput env name : keeps_files (core_getInput env name).
Proof. done. Qed.

(** One syntax-directed step of an [emits] or [keeps_files] proof. *)
Ltac effects_step :=
  first
    [ apply emits_ret | apply emits_throw | apply emits_core_getInput
    | apply emits_warning | apply emits_call | apply emits_call_writing
    | apply emits_statSize | apply emits_unlinkFile
    | apply emits_bind; [| intros ?]
    | apply emits_try_catch; [| intros ?]
    | apply emits_try_finally
    | apply keeps_ret | apply keeps_throw | apply keeps_core_getInput
    | apply keeps_warning | apply keeps_call
    | apply keeps_bind; [| intros ?]
    | apply keeps_try_catch; [| intros ?]
    | progress case_match ].

Ltac effects := repeat effects_step; try done.

(** ** The key resolver *)

Lemma string_length_app (s t : string) :
  String.length (s +:+ t) = (String.length s + String.length t)%nat.
Proof. induction s as [|c s IH]; simpl; [done | by rewrite IH]. Qed.

Lemma string_app_inv_tail (s s' t : string) : s +:+ t = s' +:+ t → s = s'.
Proof.
  revert s'. induction s as [|c s IH]; intros [|c' s'] H.
  - done.
  - apply (f_equal String.length) in H.
    rewrite !string_length_app in H. simpl in H. lia.
  - apply (f_equal String.length) in H.
    rewrite !string_length_app in H. simpl in H. lia.
  - injection H as -> H. f_equal. by apply IH.
Qed.

Lemma getGCSPath_inj env pathPrefix cm key key' :
  getGCSPath env pathPrefix key cm = getGCSPath env pathPrefix key' cm →
  key = key'.
Proof.
  unfold getGCSPath. intros H.
  apply (inj (String.app pathPrefix)), (inj (String.app "/")) in H.
  by apply string_app_inv_tail in H.
Qed.

Lemma getGCSPath_length env pathPrefix cm key :
  (String.length key < String.length (getGCSPath env pathPrefix key cm))%nat.
Proof. unfold getGCSPath. rewrite !string_length_app. simpl. lia. Qed.

Lemma getGCSPath_not_key env pathPrefix cm key :
  getGCSPath env pathPrefix key cm ≠ key.
Proof.
  intros H. pose proof (getGCSPath_length env pathPrefix cm key) as L.
  rewrite H in L. lia.
Qed.

Lemma getGCSPath_truthy env pathPrefix cm key :
  truthy_string (Some (getGCSPath env pathPrefix key cm)) = true.
Proof.
  simpl. apply negb_true_iff, String.eqb_neq. intros H.
  pose proof (getGCSPath_length env pathPrefix cm key) as L.
  rewrite H in L. simpl in L. lia.
Qed.

Section Resolver.

Variables (env : Env) (storage : Storage) (bucket pathPrefix : string)
  (cm : CompressionMethod).

Local Abbreviation hit := (present env bucket).
Local Abbreviation path := (λ key, getGCSPath env pathPrefix key cm).
Local Abbreviation first := (firstExisting env bucket pathPrefix cm).

Lemma findFileOnGCS_loop_cons key keys w :
  findFileOnGCS_loop env storage bucket pathPrefix (key :: keys) cm w =
  match fileExists env bucket (path key) with
  | Ret true =>
      (Ret (Some (path key)), record (EFileExists bucket (path key)) w)
  | Ret false =>
      findFileOnGCS_loop env storage bucket pathPrefix keys cm
        (record (EFileExists bucket (path key)) w)
  | Throw e =>
      findFileOnGCS_loop env storage bucket pathPrefix keys cm
        (record (EWarn ("Error checking if file exists at " +:+ bucket +:+ "/"
                         +:+ path key +:+ ": " +:+ e))
           (record (EWarn ("Error checking file existence: " +:+ e))
              (record (EFileExists bucket (path key)) w)))
  end.
Proof.
  cbn [findFileOnGCS_loop]. unfold checkFileExists. unfold_monad.
  destruct (fileExists env bucket (path key)) as [[|]|e]; reflexivity.
Qed.

Lemma findFileOnGCS_loop_result keys w :
  (findFileOnGCS_loop env storage bucket pathPrefix keys cm w).1 =
  Ret (first keys).
Proof.
  revert w. induction keys as [|key keys IH]; intros w; [done |].
  rewrite findFileOnGCS_loop_cons. unfold firstExisting. cbn [map List.find].
  unfold present at 1.
  destruct (fileExists env bucket (path key)) as [[|]|e]; [done | |];
    apply IH.
Qed.

Lemma findFileOnGCS_loop_probes keys w :
  probes (trace (findFileOnGCS_loop env storage bucket pathPrefix keys cm w).2) =
  rev (scanned hit (map path keys)) ++ probes (trace w).
Proof.
  revert w. induction keys as [|key keys IH]; intros w; [done |].
  rewrite findFileOnGCS_loop_cons. cbn [map scanned]. unfold present at 1.
  destruct (fileExists env bucket (path key)) as [[|]|e]; [done | |];
    rewrite IH; cbn [rev]; by rewrite <- (assoc_L (++)).
Qed.

(** Candidates without a hit are passed over one after the other. *)
Lemma findFileOnGCS_loop_app before rest w :
  Forall (λ k, fileExists env bucket (path k) ≠ Ret true) before →
  findFileOnGCS_loop env storage bucket pathPrefix (before ++ rest) cm w =
  findFileOnGCS_loop env storage bucket pathPrefix rest cm
    (findFileOnGCS_loop env storage bucket pathPrefix before cm w).2.
Proof.
  intros Hmiss. revert w.
  induction Hmiss as [|key before Hkey _ IH]; intros w; [done |].
  rewrite <- app_comm_cons, !findFileOnGCS_loop_cons.
  destruct (fileExists env bucket (path key)) as [[|]|e]; [done | |]; apply IH.
Qed.

(** After a miss the function lists the prefix, for the log only. *)
Lemma findFileOnGCS_run keys w :
  findFileOnGCS env storage bucket pathPrefix keys cm w =
  let w1 := (findFileOnGCS_loop env storage bucket pathPrefix keys cm w).2 in
  match first keys with
  | Some p => (Ret (Some p), w1)
  | None =>
      (Ret None,
       match getFiles env bucket pathPrefix with
       | Ret _ => record (EGetFiles bucket pathPrefix) w1
       | Throw e =>
           record (EWarn ("Error listing files in prefix " +:+ pathPrefix +:+ ": "
                          +:+ e))
             (record (EGetFiles bucket pathPrefix) w1)
       end)
  end.
Proof.
  unfold findFileOnGCS, bind.
  pose proof (findFileOnGCS_loop_result keys w) as H.
  destruct (findFileOnGCS_loop _ _ _ _ _ _ w) as [r w1]. simpl in H. subst r.
  simpl. destruct (first keys); [done |]. unfold_monad.
  by destruct (getFiles env bucket pathPrefix).
Qed.

Lemma findFileOnGCS_result keys w :
  (findFileOnGCS env storage bucket pathPrefix keys cm w).1 = Ret (first keys).
Proof. rewrite findFileOnGCS_run. simpl. by destruct (first keys). Qed.

Lemma findFileOnGCS_probes keys w :
  probes (trace (findFileOnGCS env storage bucket pathPrefix keys cm w).2) =
  rev (scanned hit (map path keys)) ++ probes (trace w).
Proof.
  rewrite findFileOnGCS_run. simpl.
  destruct (first keys); simpl; [apply findFileOnGCS_loop_probes |].
  destruct (getFiles env bucket pathPrefix); simpl;
    apply findFileOnGCS_loop_probes.
Qed.

Lemma firstExisting_skip pre keys :
  Forall (λ k, hit (path k) = false) pre →
  first (pre ++ keys) = first keys.
Proof.
  unfold firstExisting. induction 1 as [|k pre Hk _ IH]; [done |].
  simpl. by rewrite Hk.
Qed.

Lemma firstExisting_Some keys object :
  first keys = Some object →
  ∃ key, key ∈ keys ∧ object = path key ∧ hit object = true.
Proof.
  unfold firstExisting. intros H. apply find_some in H as [Hin Hp].
  apply in_map_iff in Hin as (key & <- & Hin).
  exists key. by rewrite list_elem_of_In.
Qed.

Lemma firstExisting_None keys :
  Forall (λ k, fileExists env bucket (path k) ≠ Ret true) keys →
  first keys = None.
Proof.
  unfold firstExisting. induction 1 as [|k keys Hk _ IH]; [done |].
  simpl. unfold present at 1.
  by destruct (fileExists env bucket (path k)) as [[|]|e].
Qed.

Lemma findFileOnGCS_loop_emits P keys :
  (∀ o, P (EFileExists bucket o)) → (∀ msg, P (EWarn msg)) →
  emits P (findFileOnGCS_loop env storage bucket pathPrefix keys cm).
Proof.
  intros Hp Hw. induction keys as [|key keys IH]; cbn [findFileOnGCS_loop].
  - apply emits_ret.
  - unfold checkFileExists. effects.
Qed.

Lemma findFileOnGCS_emits P keys :
  (∀ o, P (EFileExists bucket o)) → (∀ msg, P (EWarn msg)) →
  P (EGetFiles bucket pathPrefix) →
  emits P (findFileOnGCS env storage bucket pathPrefix keys cm).
Proof.
  intros Hp Hw Hl. unfold findFileOnGCS.
  apply emits_bind; [by apply findFileOnGCS_loop_emits |]. intros r. effects.
Qed.

Lemma findFileOnGCS_loop_keeps keys :
  keeps_files (findFileOnGCS_loop env storage bucket pathPrefix keys cm).
Proof.
  induction keys as [|key keys IH]; cbn [findFileOnGCS_loop].
  - apply keeps_ret.
  - unfold checkFileExists. effects.
Qed.

Lemma findFileOnGCS_keeps keys :
  keeps_files (findFileOnGCS env storage bucket pathPrefix keys cm).
Proof.
  unfold findFileOnGCS.
  apply keeps_bind; [by apply findFileOnGCS_loop_keeps |]. intros r. effects.
Qed.

End Resolver.

(** ** The two tiers *)

Lemma bind_run {A B} (m : M A) (k : A → M B) w a :
  (m w).1 = Ret a → bind m k w = k a (m w).2.
Proof. unfold bind. destruct (m w) as [r w1]. simpl. by intros ->. Qed.

Lemma bind_run_throw {A B} (m : M A) (k : A → M B) w e :
  (m w).1 = Throw e → bind m k w = (Throw e, (m w).2).
Proof. unfold bind. destruct (m w) as [r w1]. simpl. by intros ->. Qed.

(** The [finally] block never throws, always calls [unlinkFile] on the
    archive, and leaves no archive behind unless that call fails. *)
Lemma cleanupArchive_spec env archivePath w :
  let w' := (cleanupArchive env archivePath w).2 in
  (cleanupArchive env archivePath w).1 = Ret tt ∧
  trace w' = EUnlink archivePath :: trace w ∧
  (tmpfs w' !! archivePath = None ∨ is_Some (unlinkFault env archivePath)).
Proof.
  unfold cleanupArchive, unlinkFile. unfold_monad.
  destruct (tmpfs w !! archivePath) as [n|] eqn:E; simpl.
  - destruct (unlinkFault env archivePath) as [e|] eqn:F; simpl.
    + split_and!; [done | done |]. right. by exists e.
    + split_and!; [done | done |]. left. apply lookup_delete_eq.
  - split_and!; [done | done |]. by left.
Qed.

Lemma try_finally_cleanup {A} (m : M A) env archivePath w :
  try_finally m (cleanupArchive env archivePath) w =
  ((m w).1, (cleanupArchive env archivePath (m w).2).2).
Proof.
  unfold try_finally. destruct (m w) as [r w1]. simpl.
  pose proof (cleanupArchive_spec env archivePath w1) as (H & _).
  destruct (cleanupArchive env archivePath w1) as [[[]|e] w2]; by simpl in *.
Qed.

Lemma ensureDirectories_ret env paths w :
  (ensureDirectories env paths w).1 = Ret tt.
Proof.
  revert w. induction paths as [|p paths IH]; intros w; [done |].
  cbn [ensureDirectories]. unfold_monad.
  destruct (mkdir env (dirname env p)) as [[]|e]; apply IH.
Qed.

Lemma ensureDirectories_emits P env paths :
  (∀ d, P (EMkdir d)) → (∀ msg, P (EWarn msg)) →
  emits P (ensureDirectories env paths).
Proof.
  intros Hd Hw. induction paths as [|p paths IH]; cbn [ensureDirectories];
    effects.
Qed.

Lemma ensureDirectories_keeps env paths :
  keeps_files (ensureDirectories env paths).
Proof. induction paths as [|p paths IH]; cbn [ensureDirectories]; effects. Qed.

Lemma verifyExtraction_emits P env paths :
  (∀ f, P (EExistsSync f)) → (∀ msg, P (EWarn msg)) →
  emits P (verifyExtraction env paths).
Proof.
  intros Hd Hw. induction paths as [|p paths IH]; cbn [verifyExtraction];
    effects.
Qed.

Lemma getGCSClient_emits P env :
  P ENewStorage → (∀ msg, P (EWarn msg)) → emits P (getGCSClient env).
Proof. intros. unfold getGCSClient. effects. Qed.

Lemma verifyBucket_emits {A} P env bucket (failure : A) :
  P (EBucketExists bucket) → (∀ msg, P (EWarn msg)) →
  emits P (verifyBucket env bucket failure).
Proof. intros. unfold verifyBucket. effects. Qed.

Lemma checkArchive_emits {A} P archivePath m1 m2 (failure : A) :
  P (EStat archivePath) → (∀ msg, P (EWarn msg)) →
  emits P (checkArchive archivePath m1 m2 failure).
Proof. intros. unfold checkArchive. effects. Qed.

Lemma restoreFromGCS_emits env paths primaryKey restoreKeys options :
  emits not_local (restoreFromGCS env paths primaryKey restoreKeys options).
Proof.
  unfold restoreFromGCS.
  apply emits_bind; [by apply getGCSClient_emits |]. intros [s|]; [| effects].
  do 3 (apply emits_bind; [effects |]; intros ?).
  apply emits_bind; [by apply verifyBucket_emits |]. intros [r|]; [effects |].
  apply emits_bind; [by apply ensureDirectories_emits |]. intros _.
  apply emits_bind; [effects |]. intros dir.
  apply emits_bind; [by apply findFileOnGCS_emits |]. intros [o|]; [| effects].
  do 2 (case_match; [effects |]).
  apply emits_try_finally; [| unfold cleanupArchive; effects].
  apply emits_try_catch; [| intros e; unfold restoreFromGCS_catch; effects].
  unfold restoreFromGCS_try.
  apply emits_bind; [effects |]. intros _.
  apply emits_bind; [by apply checkArchive_emits |]. intros [r|]; [effects |].
  do 3 (apply emits_bind; [effects |]; intros ?).
  apply emits_bind; [by apply verifyExtraction_emits |]. intros ?. effects.
Qed.

Lemma saveToGCS_emits env paths key :
  emits not_local (saveToGCS env paths key).
Proof.
  unfold saveToGCS.
  apply emits_bind; [by apply getGCSClient_emits |]. intros [s|]; [| effects].
  do 3 (apply emits_bind; [effects |]; intros ?).
  apply emits_bind; [by apply verifyBucket_emits |]. intros [r|]; [effects |].
  apply emits_bind; [effects |]. intros cachePaths.
  case_match; [effects |].
  apply emits_bind; [effects |]. intros dir.
  apply emits_try_finally; [| unfold cleanupArchive; effects].
  apply emits_try_catch; [| intros e; unfold saveToGCS_catch; effects].
  unfold saveToGCS_try.
  do 2 (apply emits_bind; [effects |]; intros ?).
  apply emits_bind; [by apply checkArchive_emits |]. intros [r|]; effects.
Qed.

(** The remote save tier only ever returns one of its two sentinels. *)
Lemma saveToGCS_sentinel env paths key w n :
  (saveToGCS env paths key w).1 = Ret n → n = 1%Z ∨ n = (-1)%Z.
Proof.
  unfold saveToGCS, saveToGCS_try, saveToGCS_catch, getGCSClient, verifyBucket,
    checkArchive, cleanupArchive, statSize, unlinkFile.
  unfold_monad. intros H.
  repeat (case_match; simplify_eq/=); auto.
Qed.

(** ** The fallback coordinator *)

Lemma isGCSAvailable_configured env bucket w :
  getInput env GCSBucket = Ret bucket → bucket ≠ EmptyString →
  isGCSAvailable env w = (Ret true, w).
Proof.
  intros Hb Hne. unfold isGCSAvailable. unfold_monad. rewrite Hb.
  apply String.eqb_neq in Hne. by rewrite Hne.
Qed.

Lemma isGCSAvailable_unset env w :
  getInput env GCSBucket = Ret EmptyString → isGCSAvailable env w = (Ret false, w).
Proof. intros Hb. unfold isGCSAvailable. unfold_monad. by rewrite Hb. Qed.

(** How [restoreCache] continues after the remote attempt. *)
Lemma restoreCache_after_remote env paths primaryKey restoreKeys options x w bucket :
  getInput env GCSBucket = Ret bucket → bucket ≠ EmptyString →
  restoreCache env paths primaryKey restoreKeys options x w =
  match restoreFromGCS env paths primaryKey restoreKeys options w with
  | (Ret result, w1) =>
      if truthy_string result then (Ret result, w1)
      else LocalOnly.restoreCache env paths primaryKey restoreKeys options x w1
  | (Throw e, w1) =>
      LocalOnly.restoreCache env paths primaryKey restoreKeys options x
        (record (EWarn ("Failed to restore from GCS: " +:+ e)) w1)
  end.
Proof.
  intros Hb Hne. unfold restoreCache.
  rewrite (bind_run _ _ _ true) by (by erewrite isGCSAvailable_configured).
  erewrite isGCSAvailable_configured by done. simpl.
  unfold LocalOnly.restoreCache. unfold_monad.
  destruct (restoreFromGCS env paths primaryKey restoreKeys options w)
    as [[result|e] w1]; [| done].
  by destruct (truthy_string result).
Qed.

(** How [saveCache] continues after the remote attempt. *)
Lemma saveCache_after_remote env paths key options x w bucket :
  getInput env GCSBucket = Ret bucket → bucket ≠ EmptyString →
  saveCache env paths key options x w =
  match saveToGCS env paths key w with
  | (Ret result, w1) =>
      if truthy_number result then (Ret result, w1)
      else LocalOnly.saveCache env paths key options x
             (record (EWarn "Failed to save to GCS, falling back to GitHub cache") w1)
  | (Throw e, w1) =>
      LocalOnly.saveCache env paths key options x
        (record (EWarn ("Failed to save to GCS: " +:+ e)) w1)
  end.
Proof.
  intros Hb Hne. unfold saveCache.
  rewrite (bind_run _ _ _ true) by (by erewrite isGCSAvailable_configured).
  erewrite isGCSAvailable_configured by done. simpl.
  unfold LocalOnly.saveCache. unfold_monad.
  destruct (saveToGCS env paths key w) as [[result|e] w1]; [| done].
  by destruct (truthy_number result).
Qed.

(** Whatever the remote save tier returns, sentinel [-1] included, is
    returned by [saveCache] as it is: the local tier is reached only
    through an exception. *)
Lemma saveCache_returns_remote env paths key options x w bucket n :
  getInput env GCSBucket = Ret bucket → bucket ≠ EmptyString →
  (saveToGCS env paths key w).1 = Ret n →
  saveCache env paths key options x w = (Ret n, (saveToGCS env paths key w).2).
Proof.
  intros Hb Hne Hn. rewrite (saveCache_after_remote _ _ _ _ _ _ bucket) by done.
  pose proof (saveToGCS_sentinel _ _ _ _ _ Hn) as Hs.
  destruct (saveToGCS env paths key w) as [r w1]. simpl in *. subst r.
  by destruct Hs as [-> | ->].
Qed.

(** ** Reaching the transfer *)

(** The set-up shared by both tiers, once it succeeds. *)
Lemma getGCSClient_ready env w :
  newStorage env = Ret tt →
  getGCSClient env w = (Ret (Some StorageClient), record ENewStorage w).
Proof. intros H. unfold getGCSClient. unfold_monad. by rewrite H. Qed.

Lemma verifyBucket_ready {A} env bucket (failure : A) w :
  bucketExists env bucket = Ret true →
  verifyBucket env bucket failure w = (Ret None, record (EBucketExists bucket) w).
Proof. intros H. unfold verifyBucket. unfold_monad. by rewrite H. Qed.

Lemma saveToGCS_reached env paths key bucket prefixInput cm cachePaths dir w :
  SaveReachesArchive env paths bucket prefixInput cm cachePaths dir →
  saveToGCS env paths key w =
  try_finally
    (try_catch
       (saveToGCS_try env bucket (or_else prefixInput DEFAULT_PATH_PREFIX) key cm
          dir (archivePathIn env dir cm) cachePaths)
       saveToGCS_catch)
    (cleanupArchive env (archivePathIn env dir cm))
    (saveStarted paths bucket w).
Proof.
  intros [[Hc Hb Hp Hm He] Hr Hn Hd]. unfold saveToGCS.
  rewrite (bind_run _ _ _ (Some StorageClient)); rewrite getGCSClient_ready; try done.
  cbn [snd]. unfold core_getInput at 1 2.
  rewrite (bind_run _ _ _ bucket) by done. cbn [snd].
  rewrite (bind_run _ _ _ prefixInput) by done. cbn [snd].
  rewrite (bind_run _ _ _ cm) by done. cbn [snd].
  rewrite (bind_run _ _ _ None); rewrite verifyBucket_ready; try done.
  cbn [snd].
  rewrite (bind_run _ _ _ cachePaths) by done. cbn [snd].
  destruct cachePaths as [|p ps]; [done |]. cbn [length Nat.eqb].
  by rewrite (bind_run _ _ _ dir).
Qed.

Lemma restoreFromGCS_reached env paths primaryKey restoreKeys options
    bucket prefixInput cm dir gcsPath w :
  RestoreReachesDownload env primaryKey restoreKeys options bucket prefixInput cm
    dir gcsPath →
  restoreFromGCS env paths primaryKey restoreKeys options w =
  try_finally
    (try_catch
       (restoreFromGCS_try env paths bucket gcsPath cm (archivePathIn env dir cm))
       restoreFromGCS_catch)
    (cleanupArchive env (archivePathIn env dir cm))
    (restoreResolved env paths primaryKey restoreKeys bucket prefixInput cm w).
Proof.
  intros [[Hc Hb Hp Hm He] Hd Hf Hl]. unfold restoreFromGCS.
  rewrite (bind_run _ _ _ (Some StorageClient)); rewrite getGCSClient_ready; try done.
  cbn [snd]. unfold core_getInput at 1 2.
  rewrite (bind_run _ _ _ bucket) by done. cbn [snd].
  rewrite (bind_run _ _ _ prefixInput) by done. cbn [snd].
  rewrite (bind_run _ _ _ cm) by done. cbn [snd].
  rewrite (bind_run _ _ _ None); rewrite verifyBucket_ready; try done.
  cbn [snd].
  rewrite (bind_run _ _ _ tt) by apply ensureDirectories_ret.
  rewrite (bind_run _ _ _ dir) by done.
  rewrite (bind_run _ _ _ (Some gcsPath))
    by (by rewrite findFileOnGCS_result, Hf).
  apply firstExisting_Some in Hf as (k & _ & -> & _).
  pose proof (getGCSPath_truthy env (or_else prefixInput DEFAULT_PATH_PREFIX) cm k) as T.
  simpl in T. apply negb_true_iff in T. rewrite T, Hl. reflexivity.
Qed.

(** ** Running the tiers step by step *)

Lemma bind_ret {A B} (a : A) (k : A → M B) w : bind (ret a) k w = k a w.
Proof. done. Qed.

Lemma bind_throw {A B} (e : exn) (k : A → M B) w :
  bind (throw e) k w = (Throw e, w).
Proof. done. Qed.

Lemma bind_warning {B} msg (k : unit → M B) w :
  bind (warning msg) k w = k tt (record (EWarn msg) w).
Proof. done. Qed.

Lemma bind_call {A B} e (r : outcome A) (k : A → M B) w :
  bind (call e r) k w =
  match r with
  | Ret a => k a (record e w)
  | Throw x => (Throw x, record e w)
  end.
Proof. unfold_monad. by destruct r. Qed.

Lemma bind_getInput {B} env name (k : string → M B) w :
  bind (core_getInput env name) k w =
  match getInput env name with
  | Ret a => k a w
  | Throw x => (Throw x, w)
  end.
Proof. unfold_monad. by destruct (getInput env name). Qed.

Lemma bind_getGCSClient {B} env (k : option Storage → M B) w :
  bind (getGCSClient env) k w =
  match newStorage env with
  | Ret _ => k (Some StorageClient) (record ENewStorage w)
  | Throw e =>
      k None (record (EWarn ("Failed to initialize GCS client: " +:+ e))
                (record ENewStorage w))
  end.
Proof. unfold getGCSClient. unfold_monad. by destruct (newStorage env). Qed.

Lemma bind_verifyBucket {A B} env bucket (failure : A) (k : option A → M B) w :
  bind (verifyBucket env bucket failure) k w =
  match bucketExists env bucket with
  | Ret true => k None (record (EBucketExists bucket) w)
  | Ret false =>
      k (Some failure)
        (record (EWarn ("Bucket " +:+ bucket +:+ " does not exist or is not accessible"))
           (record (EBucketExists bucket) w))
  | Throw e =>
      k (Some failure)
        (record (EWarn ("Error checking bucket existence: " +:+ e))
           (record (EBucketExists bucket) w))
  end.
Proof.
  unfold verifyBucket. unfold_monad.
  by destruct (bucketExists env bucket) as [[|]|e].
Qed.

Lemma bind_ensureDirectories {B} env paths (k : unit → M B) w :
  bind (ensureDirectories env paths) k w = k tt (ensureDirectories env paths w).2.
Proof. apply bind_run, ensureDirectories_ret. Qed.

Lemma bind_findFileOnGCS {B} env storage bucket pathPrefix keys cm
    (k : option string → M B) w :
  bind (findFileOnGCS env storage bucket pathPrefix keys cm) k w =
  k (firstExisting env bucket pathPrefix cm keys)
    (findFileOnGCS env storage bucket pathPrefix keys cm w).2.
Proof. apply bind_run, findFileOnGCS_result. Qed.

Ltac run_step :=
  first
    [ rewrite bind_ret | rewrite bind_throw | rewrite bind_warning
    | rewrite bind_getInput | rewrite bind_call | rewrite bind_getGCSClient
    | rewrite bind_verifyBucket | rewrite bind_ensureDirectories
    | rewrite bind_findFileOnGCS ];
  cbv beta.

(** The three ways a remote save can go: the set-up fails and a sentinel
    is returned, an exception leaves the tier before the [try] block, or
    the [try] block is entered. *)
Lemma saveToGCS_cases env paths key w :
  (tmpfs (saveToGCS env paths key w).2 = tmpfs w ∧
   (saveToGCS env paths key w).1 = Ret (-1)%Z)
  ∨ (tmpfs (saveToGCS env paths key w).2 = tmpfs w ∧
     ∃ e, (saveToGCS env paths key w).1 = Throw e)
  ∨ (∃ bucket prefixInput cm cachePaths dir,
       SaveReachesArchive env paths bucket prefixInput cm cachePaths dir).
Proof.
  unfold saveToGCS. run_step.
  destruct (newStorage env) as [[]|e] eqn:Hc; [| left; by run_step].
  run_step. destruct (getInput env GCSBucket) as [bucket|e] eqn:Hb;
    [| right; left; eauto].
  run_step. destruct (getInput env GCSPathPrefix) as [prefixInput|e] eqn:Hp;
    [| right; left; eauto].
  run_step. destruct (getCompressionMethod env) as [cm|e] eqn:Hm;
    [| right; left; eauto].
  run_step. destruct (bucketExists env bucket) as [[|]|e] eqn:He;
    [| by left | by left].
  run_step. destruct (resolvePaths env paths) as [cachePaths|e] eqn:Hr;
    [| right; left; eauto].
  destruct cachePaths as [|p ps] eqn:Hn; [right; left; simpl; eauto |].
  cbn [length Nat.eqb]. run_step.
  destruct (createTempDirectory env) as [dir|e] eqn:Hd; [| right; left; eauto].
  right; right. exists bucket, prefixInput, cm, (p :: ps), dir.
  by repeat split.
Qed.

(** The ways a remote restore can go: no match is reported before the
    [try] block, an exception leaves the tier before it, a lookup-only
    request is answered by the resolver alone, or the [try] block is
    entered. *)
Lemma restoreFromGCS_cases env paths primaryKey restoreKeys options w :
  let run := restoreFromGCS env paths primaryKey restoreKeys options w in
  (tmpfs run.2 = tmpfs w ∧ run.1 = Ret None)
  ∨ (tmpfs run.2 = tmpfs w ∧ ∃ e, run.1 = Throw e)
  ∨ (∃ bucket prefixInput cm gcsPath,
       TierReady env bucket prefixInput cm ∧
       firstExisting env bucket (or_else prefixInput DEFAULT_PATH_PREFIX) cm
         (primaryKey :: default [] restoreKeys) = Some gcsPath ∧
       lookupOnly_set options = true ∧
       tmpfs run.2 = tmpfs w ∧ run.1 = Ret (Some gcsPath))
  ∨ (∃ bucket prefixInput cm dir gcsPath,
       RestoreReachesDownload env primaryKey restoreKeys options bucket
         prefixInput cm dir gcsPath).
Proof.
  intros run. subst run. unfold restoreFromGCS. run_step.
  destruct (newStorage env) as [[]|e] eqn:Hc; [| left; by run_step].
  run_step. destruct (getInput env GCSBucket) as [bucket|e] eqn:Hb;
    [| right; left; eauto].
  run_step. destruct (getInput env GCSPathPrefix) as [prefixInput|e] eqn:Hp;
    [| right; left; eauto].
  run_step. destruct (getCompressionMethod env) as [cm|e] eqn:Hm;
    [| right; left; eauto].
  run_step. destruct (bucketExists env bucket) as [[|]|e] eqn:He;
    [| by left | by left].
  run_step. run_step.
  destruct (createTempDirectory env) as [dir|e] eqn:Hd.
  2: { right; left. cbn [fst snd]. split; [| eauto].
       cbn [record tmpfs]. by rewrite ensureDirectories_keeps. }
  run_step.
  assert (tmpfs (findFileOnGCS env StorageClient bucket
                 (or_else prefixInput DEFAULT_PATH_PREFIX)
                 (primaryKey :: default [] restoreKeys) cm
                 (record ECreateTempDirectory
                    (ensureDirectories env paths
                       (record (EBucketExists bucket)
                          (record EGetCompressionMethod (record ENewStorage w)))).2)).2
               = tmpfs w) as Hkeep.
  { rewrite findFileOnGCS_keeps. cbn [record tmpfs].
    by rewrite ensureDirectories_keeps. }
  destruct (firstExisting env bucket (or_else prefixInput DEFAULT_PATH_PREFIX) cm
              (primaryKey :: default [] restoreKeys)) as [gcsPath|] eqn:Hf.
  2: { left. split; [exact Hkeep | done]. }
  destruct (String.eqb gcsPath EmptyString) eqn:Hempty.
  { left. split; [exact Hkeep | done]. }
  destruct (lookupOnly_set options) eqn:Hl.
  - right; right; left. exists bucket, prefixInput, cm, gcsPath.
    split_and!; [by split | done | done | exact Hkeep | done].
  - right; right; right. exists bucket, prefixInput, cm, dir, gcsPath.
    by repeat split.
Qed.

(** What the [try]/[catch] of a remote restore can return. *)
Lemma restoreFromGCS_try_result env paths bucket gcsPath cm archivePath w :
  let r := (try_catch
              (restoreFromGCS_try env paths bucket gcsPath cm archivePath)
              restoreFromGCS_catch w).1 in
  r = Ret None ∨ r = Ret (Some gcsPath).
Proof.
  unfold restoreFromGCS_try, restoreFromGCS_catch, checkArchive, statSize.
  unfold_monad. repeat (case_match; simplify_eq/=); auto.
Qed.

(** A value returned by the remote restore tier is the object path the
    resolver found. *)
Lemma restoreFromGCS_Some env paths primaryKey restoreKeys options w value :
  (restoreFromGCS env paths primaryKey restoreKeys options w).1 = Ret (Some value) →
  ∃ bucket prefixInput cm,
    TierReady env bucket prefixInput cm ∧
    firstExisting env bucket (or_else prefixInput DEFAULT_PATH_PREFIX) cm
      (primaryKey :: default [] restoreKeys) = Some value.
Proof.
  intros H.
  destruct (restoreFromGCS_cases env paths primaryKey restoreKeys options w)
    as [[_ E] | [[_ [e E]] | [(b & p & cm & o & R & F & _ & _ & E)
                             | (b & p & cm & dir & o & R)]]].
  - rewrite E in H. discriminate.
  - rewrite E in H. discriminate.
  - rewrite E in H. simplify_eq. eauto.
  - rewrite (restoreFromGCS_reached _ _ _ _ _ _ _ _ _ _ _ R) in H.
    rewrite try_finally_cleanup in H. cbn [fst] in H.
    destruct (restoreFromGCS_try_result env paths b o cm (archivePathIn env dir cm)
                (restoreResolved env paths primaryKey restoreKeys b p cm w))
      as [E | E]; rewrite E in H; simplify_eq.
    destruct R. eauto.
Qed.

(** ** The claims about the coordinator *)

Import Samples.

(** C1 (the code departs from the claim).  The bucket input names a
    bucket that does not exist.  The remote tier returns its failure
    sentinel [-1]; [saveCache] tests it with [if (result)], which holds of
    every number but zero, and returns [-1] as if it were a success id.
    The local cache service, which would have saved under id 42, is never
    called, so the save does not fall back. *)
Theorem saveCache_missing_bucket_skips_local :
  saveCache missingBucket ["test-fallback-cache"] "test-fallback-1" None None idle =
    (Ret (-1)%Z,
     {| trace := [EWarn ("Bucket non-existent-bucket-for-test does not exist "
                         +:+ "or is not accessible");
                  EBucketExists "non-existent-bucket-for-test";
                  EGetCompressionMethod;
                  ENewStorage];
        tmpfs := ∅ |}) ∧
  localSave missingBucket ["test-fallback-cache"] "test-fallback-1" None None =
    Ret 42%Z ∧
  ¬ Claimed.save_falls_back missingBucket ["test-fallback-cache"]
      "test-fallback-1" None None idle.
Proof.
  split_and!; [reflexivity | reflexivity |].
  intros H. specialize (H (-1)%Z eq_refl). vm_compute in H.
  assert (Ret (-1)%Z = Ret 42%Z :> outcome Z) as E by (apply H; discriminate).
  discriminate E.
Qed.

Lemma saveToGCS_empty_paths env paths key bucket prefixInput cm w :
  TierReady env bucket prefixInput cm →
  resolvePaths env paths = Ret [] →
  saveToGCS env paths key w =
  (Throw validationError, record (EResolvePaths paths) (readied bucket w)).
Proof.
  intros [Hc Hb Hp Hm He] Hr. unfold saveToGCS.
  run_step. rewrite Hc. run_step. rewrite Hb. run_step. rewrite Hp.
  run_step. rewrite Hm. run_step. rewrite He. run_step. by rewrite Hr.
Qed.

(** C2, as the code has it.  When the path patterns resolve to nothing:
    with no bucket input the save is the local cache service's call and
    nothing else; with a bucket configured and reachable, the remote tier
    creates its client and probes the bucket before it resolves the paths
    and throws the path validation error, and the coordinator catches that
    error, logs a warning and calls the local cache service, whose outcome
    is the outcome of the save. *)
Theorem save_empty_paths_reaches_local env paths key options x w :
  resolvePaths env paths = Ret [] →
  (getInput env GCSBucket = Ret EmptyString →
   saveCache env paths key options x w =
   (localSave env paths key options x,
    record (ELocalSave paths key options x) w)) ∧
  (∀ bucket prefixInput cm,
     bucket ≠ EmptyString → TierReady env bucket prefixInput cm →
     saveCache env paths key options x w =
     (localSave env paths key options x,
      {| trace := ELocalSave paths key options x
                  :: EWarn ("Failed to save to GCS: " +:+ validationError)
                  :: EResolvePaths paths
                  :: EBucketExists bucket
                  :: EGetCompressionMethod
                  :: ENewStorage
                  :: trace w;
         tmpfs := tmpfs w |})).
Proof.
  intros Hr. split.
  - intros Hb. unfold saveCache.
    rewrite (bind_run _ _ _ false) by (by rewrite isGCSAvailable_unset).
    by rewrite isGCSAvailable_unset.
  - intros bucket prefixInput cm Hne Hready.
    rewrite (saveCache_after_remote _ _ _ _ _ _ bucket)
      by (done || by destruct Hready).
    by rewrite (saveToGCS_empty_paths _ _ _ bucket prefixInput cm).
Qed.

Lemma save_empty_paths_reaches_local_witness :
  saveCache emptyPathsUnset ["nothing"] "k" None None idle =
    (Throw validationError, record (ELocalSave ["nothing"] "k" None None) idle) ∧
  (saveCache emptyPaths ["nothing"] "k" None None idle).1 = Throw validationError.
Proof.
  split.
  - assert (resolvePaths emptyPathsUnset ["nothing"] = Ret []) as Hr
      by reflexivity.
    exact (proj1 (save_empty_paths_reaches_local _ ["nothing"] "k" None None idle Hr)
             eq_refl).
  - assert (resolvePaths emptyPaths ["nothing"] = Ret []) as Hr by reflexivity.
    assert ("cache-bucket" ≠ EmptyString) as Hne by discriminate.
    assert (TierReady emptyPaths "cache-bucket" EmptyString Zstd) as Hready
      by (by split).
    by rewrite (proj2 (save_empty_paths_reaches_local _ ["nothing"] "k" None None
                         idle Hr) _ _ _ Hne Hready).
Defined.

(** C2 does not hold as stated: the save below, whose patterns match
    nothing, probes the bucket and then calls the local cache service. *)
Lemma save_empty_paths_not_fast :
  ¬ Claimed.save_fails_fast emptyPaths ["nothing"] "k" None None idle.
Proof.
  intros H. destruct (H eq_refl) as (e & new & _ & Htrace & Hquiet).
  assert (new = [ELocalSave ["nothing"] "k" None None;
                 EWarn ("Failed to save to GCS: " +:+ validationError);
                 EResolvePaths ["nothing"];
                 EBucketExists "cache-bucket";
                 EGetCompressionMethod;
                 ENewStorage]) as ->.
  { rewrite app_nil_r in Htrace. rewrite <- Htrace. reflexivity. }
  rewrite Forall_forall in Hquiet.
  specialize (Hquiet (EBucketExists "cache-bucket")).
  assert (is_network (EBucketExists "cache-bucket") = false) as Hn.
  { apply Hquiet. set_solver. }
  discriminate Hn.
Qed.

(** C8.  With no bucket input, [restoreCache] and [saveCache] are the
    local cache service used alone: the only call made is the local one,
    with the caller's arguments, and its outcome is returned; no client is
    created and no bucket is probed. *)
Theorem no_bucket_is_local_only env :
  getInput env GCSBucket = Ret EmptyString →
  (∀ paths primaryKey restoreKeys options x w,
     restoreCache env paths primaryKey restoreKeys options x w =
       LocalOnly.restoreCache env paths primaryKey restoreKeys options x w ∧
     restoreCache env paths primaryKey restoreKeys options x w =
       (localRestore env paths primaryKey restoreKeys options x,
        record (ELocalRestore paths primaryKey restoreKeys options x) w)) ∧
  (∀ paths key options x w,
     saveCache env paths key options x w =
       LocalOnly.saveCache env paths key options x w ∧
     saveCache env paths key options x w =
       (localSave env paths key options x,
        record (ELocalSave paths key options x) w)).
Proof.
  intros Hb. split; intros.
  - unfold restoreCache.
    rewrite (bind_run _ _ _ false) by (by rewrite isGCSAvailable_unset).
    by rewrite isGCSAvailable_unset.
  - unfold saveCache.
    rewrite (bind_run _ _ _ false) by (by rewrite isGCSAvailable_unset).
    by rewrite isGCSAvailable_unset.
Qed.

Lemma no_bucket_is_local_only_witness :
  restoreCache unset ["x"] "k" None None None idle =
    (Ret (Some "k"), record (ELocalRestore ["x"] "k" None None None) idle) ∧
  saveCache unset ["x"] "k" None None idle =
    (Ret 42%Z, record (ELocalSave ["x"] "k" None None) idle).
Proof.
  assert (getInput unset GCSBucket = Ret EmptyString) as Hb by reflexivity.
  split.
  - exact (proj2 (proj1 (no_bucket_is_local_only unset Hb)
                    ["x"] "k" None None None idle)).
  - exact (proj2 (proj2 (no_bucket_is_local_only unset Hb)
                    ["x"] "k" None None idle)).
Defined.

(** C4.  With a bucket configured, [restoreCache] first runs the remote
    restore, which makes no call to the local cache service.  A value
    returned by the remote restore is returned as it is, and the local
    service is not called at all.  When the remote restore returns no
    match or throws, the coordinator (after a warning in the second case)
    calls the local cache service with the caller's arguments and returns
    its outcome unchanged. *)
Theorem restoreCache_remote_then_local env paths primaryKey restoreKeys options x w
    bucket :
  bucketConfigured env bucket →
  (∃ new,
     trace (restoreFromGCS env paths primaryKey restoreKeys options w).2 =
       new ++ trace w ∧
     Forall not_local new) ∧
  match restoreFromGCS env paths primaryKey restoreKeys options w with
  | (Ret (Some result), w1) =>
      restoreCache env paths primaryKey restoreKeys options x w =
      (Ret (Some result), w1)
  | (Ret None, w1) =>
      restoreCache env paths primaryKey restoreKeys options x w =
      (localRestore env paths primaryKey restoreKeys options x,
       record (ELocalRestore paths primaryKey restoreKeys options x) w1)
  | (Throw e, w1) =>
      restoreCache env paths primaryKey restoreKeys options x w =
      (localRestore env paths primaryKey restoreKeys options x,
       record (ELocalRestore paths primaryKey restoreKeys options x)
         (record (EWarn ("Failed to restore from GCS: " +:+ e)) w1))
  end.
Proof.
  intros [Hb Hne]. split; [apply restoreFromGCS_emits |].
  rewrite (restoreCache_after_remote _ _ _ _ _ _ _ bucket) by done.
  pose proof (restoreFromGCS_Some env paths primaryKey restoreKeys options w) as HS.
  destruct (restoreFromGCS env paths primaryKey restoreKeys options w)
    as [[[result|]|e] w1]; [| done | done].
  destruct (HS result eq_refl) as (b & p & cm & _ & Hf).
  apply firstExisting_Some in Hf as (k & _ & -> & _).
  by rewrite getGCSPath_truthy.
Qed.

Lemma restoreCache_remote_then_local_witness :
  (restoreCache healthy ["x"] "k" None None None idle).1 =
    Ret (Some "github-cache/k.cache.tzst") ∧
  (restoreCache healthy ["x"] "other" None None None idle).1 = Ret (Some "k").
Proof.
  assert (bucketConfigured healthy "cache-bucket") as Hc by (by split).
  split.
  - pose proof (proj2 (restoreCache_remote_then_local healthy ["x"] "k" None None
                         None idle "cache-bucket" Hc)) as H.
    by rewrite H.
  - pose proof (proj2 (restoreCache_remote_then_local healthy ["x"] "other" None
                         None None idle "cache-bucket" Hc)) as H.
    by rewrite H.
Defined.

(** ** The claims about the key resolver *)

Lemma firstExisting_only env bucket pathPrefix cm keys k2 :
  k2 ∈ keys →
  (∀ object, present env bucket object = true ↔
             object = getGCSPath env pathPrefix k2 cm) →
  firstExisting env bucket pathPrefix cm keys = Some (getGCSPath env pathPrefix k2 cm).
Proof.
  intros Hin Honly. unfold firstExisting.
  induction keys as [|k keys IH]; [by apply elem_of_nil in Hin |].
  cbn [map List.find].
  destruct (present env bucket (getGCSPath env pathPrefix k cm)) eqn:Hk.
  - apply Honly in Hk. by rewrite Hk.
  - apply elem_of_cons in Hin as [-> | Hin]; [| by apply IH].
    assert (present env bucket (getGCSPath env pathPrefix k cm) = true) as Hk'
      by (by apply Honly).
    congruence.
Qed.

(** C3.  The resolver returns the first candidate, in the order of the
    key list, whose object path [prefix/key.extension] is reported to
    exist, and no match when there is none; it probes the candidates in
    that order and stops at the first hit.  Against a store that holds
    only the object of [k2] it returns the object of [k2], which is the
    object of no other key. *)
Theorem findFileOnGCS_first_match env storage bucket pathPrefix cm keys w :
  let path := λ key, getGCSPath env pathPrefix key cm in
  let run := findFileOnGCS env storage bucket pathPrefix keys cm w in
  run.1 = Ret (firstExisting env bucket pathPrefix cm keys) ∧
  probes (trace run.2) =
    rev (scanned (present env bucket) (map path keys)) ++ probes (trace w) ∧
  (∀ k2, k2 ∈ keys →
     (∀ object, present env bucket object = true ↔ object = path k2) →
     run.1 = Ret (Some (path k2)) ∧ ∀ k, k ≠ k2 → path k ≠ path k2) ∧
  (Forall (λ k, fileExists env bucket (path k) ≠ Ret true) keys →
   run.1 = Ret None).
Proof.
  intros path run. subst run. split_and!.
  - apply findFileOnGCS_result.
  - apply findFileOnGCS_probes.
  - intros k2 Hin Honly. split.
    + rewrite findFileOnGCS_result. f_equal. by apply firstExisting_only.
    + intros k Hk E. apply Hk. by apply getGCSPath_inj in E.
  - intros Hnone. rewrite findFileOnGCS_result. f_equal.
    by apply firstExisting_None.
Qed.

Lemma holding_only (object wanted : string) :
  match holding [wanted] object with Ret true => true | _ => false end = true ↔
  object = wanted.
Proof.
  unfold holding. case_bool_decide as H.
  - apply list_elem_of_singleton in H. by split.
  - split; [done |]. intros ->. destruct H. set_solver.
Qed.

Lemma findFileOnGCS_first_match_witness :
  (findFileOnGCS onlySecond StorageClient "cache-bucket" "github-cache"
     ["k1"; "k2"; "k3"] Zstd idle).1 = Ret (Some "github-cache/k2.cache.tzst") ∧
  (findFileOnGCS healthy StorageClient "cache-bucket" "github-cache"
     ["k1"; "k2"; "k3"] Zstd idle).1 = Ret None.
Proof.
  split.
  - refine (proj1 (proj1 (proj2 (proj2 (findFileOnGCS_first_match onlySecond
              StorageClient "cache-bucket" "github-cache" Zstd ["k1"; "k2"; "k3"]
              idle))) "k2" _ _)).
    + set_solver.
    + intros object. apply holding_only.
  - refine (proj2 (proj2 (proj2 (findFileOnGCS_first_match healthy
              StorageClient "cache-bucket" "github-cache" Zstd ["k1"; "k2"; "k3"]
              idle))) _).
    repeat constructor; discriminate.
Defined.

(** C7.  A candidate whose existence probe throws is skipped: when the
    loop reaches it (no candidate before it was a hit), both handlers log
    the error as a warning and the resolver goes on with the candidates
    after it exactly as it would have started on them; nothing is thrown
    to the caller.  So when every candidate before [key] throws or is
    reported absent and the probe of [key] returns [true], the resolver
    returns the object of [key]. *)
Theorem findFileOnGCS_probe_error_skipped env storage bucket pathPrefix cm :
  let path := λ key, getGCSPath env pathPrefix key cm in
  (∀ before key after e w,
     Forall (λ k, fileExists env bucket (path k) ≠ Ret true) before →
     fileExists env bucket (path key) = Throw e →
     findFileOnGCS env storage bucket pathPrefix (before ++ key :: after) cm w =
     findFileOnGCS env storage bucket pathPrefix after cm
       (record (EWarn ("Error checking if file exists at " +:+ bucket +:+ "/"
                        +:+ path key +:+ ": " +:+ e))
          (record (EWarn ("Error checking file existence: " +:+ e))
             (record (EFileExists bucket (path key))
                (findFileOnGCS_loop env storage bucket pathPrefix before cm w).2)))) ∧
  (∀ skipped key rest w,
     Forall (λ k, fileExists env bucket (path k) ≠ Ret true) skipped →
     fileExists env bucket (path key) = Ret true →
     (findFileOnGCS env storage bucket pathPrefix (skipped ++ key :: rest) cm w).1 =
     Ret (Some (path key))).
Proof.
  intros path. subst path. cbv beta. split.
  - intros before key after e w Hmiss He. unfold findFileOnGCS, bind.
    by rewrite findFileOnGCS_loop_app, findFileOnGCS_loop_cons, He.
  - intros skipped key rest w Hskip Hkey.
    rewrite findFileOnGCS_result. f_equal.
    rewrite firstExisting_skip.
    + unfold firstExisting. cbn [map List.find]. unfold present at 1.
      by rewrite Hkey.
    + eapply Forall_impl; [exact Hskip |]. intros k Hk. cbv beta in Hk |- *.
      unfold present.
      by destruct (fileExists env bucket (getGCSPath env pathPrefix k cm))
        as [[|]|].
Qed.

Lemma findFileOnGCS_probe_error_skipped_witness :
  (findFileOnGCS flaky StorageClient "cache-bucket" "github-cache"
     ["k1"; "k2"] Zstd idle).1 = Ret (Some "github-cache/k2.cache.tzst") ∧
  trace (findFileOnGCS flaky StorageClient "cache-bucket" "github-cache"
           ["k1"; "k2"] Zstd idle).2 =
    [EFileExists "cache-bucket" "github-cache/k2.cache.tzst";
     EWarn ("Error checking if file exists at "
            +:+ "cache-bucket/github-cache/k1.cache.tzst: ECONNRESET");
     EWarn "Error checking file existence: ECONNRESET";
     EFileExists "cache-bucket" "github-cache/k1.cache.tzst"].
Proof.
  split.
  - refine (proj2 (findFileOnGCS_probe_error_skipped flaky StorageClient
              "cache-bucket" "github-cache" Zstd) ["k1"] "k2" [] idle _ _).
    + repeat constructor. discriminate.
    + reflexivity.
  - etrans; [| reflexivity].
    exact (f_equal (λ r, trace r.2)
             (proj1 (findFileOnGCS_probe_error_skipped flaky StorageClient
                       "cache-bucket" "github-cache" Zstd)
                [] "k1" ["k2"] "ECONNRESET" idle (Forall_nil_2 _) eq_refl)).
Defined.

(** ** The claims about the archive transfer *)

Lemma saveToGCS_try_empty env bucket pathPrefix key cm dir archivePath cachePaths w :
  leaves (createTar env dir cachePaths cm) = Some 0%N →
  (try_catch
     (saveToGCS_try env bucket pathPrefix key cm dir archivePath cachePaths)
     saveToGCS_catch w).1 = Ret (-1)%Z.
Proof.
  intros Hz. unfold saveToGCS_try, saveToGCS_catch, checkArchive, statSize.
  unfold_monad. rewrite Hz.
  destruct (completion (createTar env dir cachePaths cm)) as [[]|e]; [| done].
  destruct (listTar env archivePath cm) as [[]|e]; [| done].
  cbn [record tmpfs trace]. by rewrite lookup_insert_eq.
Qed.

Lemma restoreFromGCS_try_empty env paths bucket gcsPath cm archivePath w :
  leaves (download env bucket gcsPath archivePath) = Some 0%N →
  (try_catch
     (restoreFromGCS_try env paths bucket gcsPath cm archivePath)
     restoreFromGCS_catch w).1 = Ret None.
Proof.
  intros Hz. unfold restoreFromGCS_try, restoreFromGCS_catch, checkArchive, statSize.
  unfold_monad. rewrite Hz.
  destruct (completion (download env bucket gcsPath archivePath)) as [[]|e];
    [| done].
  cbn [record tmpfs trace]. by rewrite lookup_insert_eq.
Qed.

(** C5.  A remote save whose archive comes out with zero bytes returns
    the failure id [-1], and a remote restore whose downloaded archive has
    zero bytes returns [undefined]; neither reports a success. *)
Theorem zero_byte_archive_fails env paths key primaryKey restoreKeys options w :
  (∀ bucket prefixInput cm cachePaths dir,
     SaveReachesArchive env paths bucket prefixInput cm cachePaths dir →
     leaves (createTar env dir cachePaths cm) = Some 0%N →
     (saveToGCS env paths key w).1 = Ret (-1)%Z) ∧
  (∀ bucket prefixInput cm dir gcsPath,
     RestoreReachesDownload env primaryKey restoreKeys options bucket prefixInput
       cm dir gcsPath →
     leaves (download env bucket gcsPath (archivePathIn env dir cm)) = Some 0%N →
     (restoreFromGCS env paths primaryKey restoreKeys options w).1 = Ret None).
Proof.
  split.
  - intros bucket prefixInput cm cachePaths dir Hreach Hz.
    rewrite (saveToGCS_reached _ _ _ _ _ _ _ _ _ Hreach), try_finally_cleanup.
    by apply saveToGCS_try_empty.
  - intros bucket prefixInput cm dir gcsPath Hreach Hz.
    rewrite (restoreFromGCS_reached _ _ _ _ _ _ _ _ _ _ _ Hreach),
      try_finally_cleanup.
    by apply restoreFromGCS_try_empty.
Qed.

Lemma zero_byte_archive_fails_witness :
  (saveToGCS emptyArchive ["x"] "k" idle).1 = Ret (-1)%Z ∧
  (restoreFromGCS emptyArchive ["x"] "k" None None idle).1 = Ret None.
Proof.
  assert (TierReady emptyArchive "cache-bucket" EmptyString Zstd) as Hready
    by (by split).
  split.
  - refine (proj1 (zero_byte_archive_fails emptyArchive ["x"] "k" "k" None None idle)
              "cache-bucket" EmptyString Zstd ["x"] "/tmp/a1" _ _).
    + by split.
    + reflexivity.
  - refine (proj2 (zero_byte_archive_fails emptyArchive ["x"] "k" "k" None None idle)
              "cache-bucket" EmptyString Zstd "/tmp/a1" "github-cache/k.cache.tzst" _ _).
    + by split.
    + reflexivity.
Defined.

Lemma saveToGCS_try_upload env bucket pathPrefix key cm dir archivePath cachePaths
    size w :
  createTar env dir cachePaths cm = {| completion := Ret tt; leaves := Some size |} →
  size ≠ 0%N →
  listTar env archivePath cm = Ret tt →
  let gcsPath := getGCSPath env pathPrefix key cm in
  let meta := {| cacheKey := key; createdBy := "gcs-cache-action";
                 createdAt := isoNow env |} in
  (try_catch
     (saveToGCS_try env bucket pathPrefix key cm dir archivePath cachePaths)
     saveToGCS_catch w).1 =
  match upload env bucket archivePath gcsPath meta with
  | Ret _ =>
      match fileExists env bucket gcsPath with
      | Ret true => Ret 1%Z
      | _ => Ret (-1)%Z
      end
  | Throw _ => Ret (-1)%Z
  end.
Proof.
  intros Htar Hsize Hlist gcsPath meta. subst gcsPath meta.
  unfold saveToGCS_try, saveToGCS_catch, checkArchive, statSize.
  unfold_monad. rewrite Htar, Hlist. cbn [completion leaves record tmpfs trace].
  rewrite lookup_insert_eq. apply N.eqb_neq in Hsize. rewrite Hsize.
  destruct (upload env bucket archivePath _ _) as [[]|e]; [| done].
  by destruct (fileExists env bucket _) as [[|]|e].
Qed.

(** The calls of the [try] block once the archive is written and not
    empty. *)
Lemma saveToGCS_try_upload_trace env bucket pathPrefix key cm dir archivePath
    cachePaths size w :
  createTar env dir cachePaths cm = {| completion := Ret tt; leaves := Some size |} →
  size ≠ 0%N →
  listTar env archivePath cm = Ret tt →
  let gcsPath := getGCSPath env pathPrefix key cm in
  let meta := {| cacheKey := key; createdBy := "gcs-cache-action";
                 createdAt := isoNow env |} in
  trace (try_catch
           (saveToGCS_try env bucket pathPrefix key cm dir archivePath cachePaths)
           saveToGCS_catch w).2 =
  match upload env bucket archivePath gcsPath meta with
  | Ret _ =>
      match fileExists env bucket gcsPath with
      | Ret true => []
      | Ret false => [EWarn "Upload appeared to succeed but file not found in GCS"]
      | Throw e => [EWarn ("Error creating or uploading cache: " +:+ e)]
      end ++ [EFileExists bucket gcsPath; EUpload bucket archivePath gcsPath meta]
  | Throw e =>
      [EWarn ("Error creating or uploading cache: " +:+ e);
       EUpload bucket archivePath gcsPath meta]
  end ++ EStat archivePath :: EListTar archivePath cm
      :: ECreateTar dir cachePaths cm :: trace w.
Proof.
  intros Htar Hsize Hlist gcsPath meta. subst gcsPath meta.
  unfold saveToGCS_try, saveToGCS_catch, checkArchive, statSize.
  unfold_monad. rewrite Htar, Hlist. cbn [completion leaves record tmpfs trace].
  rewrite lookup_insert_eq. apply N.eqb_neq in Hsize. rewrite Hsize.
  destruct (upload env bucket archivePath _ _) as [[]|e]; [| done].
  by destruct (fileExists env bucket _) as [[|]|e].
Qed.

(** C6.  A remote save that gets as far as the upload makes the calls of
    lines 321-346 in this order: the upload of the archive to the object
    path of the key and then, only if the upload completed, exactly one
    existence probe of that same object path.  It returns the success id
    [1] exactly when the upload completed and that probe answered [true];
    in every other case, a completed upload whose probe answers [false] or
    throws included, it returns [-1], after a warning.  When the upload
    throws no probe is made.  The last call is the unlink of the
    archive. *)
Theorem saveToGCS_success_iff_probe env paths key w bucket prefixInput cm
    cachePaths dir size :
  let archivePath := archivePathIn env dir cm in
  let gcsPath := getGCSPath env (or_else prefixInput DEFAULT_PATH_PREFIX) key cm in
  let meta := {| cacheKey := key; createdBy := "gcs-cache-action";
                 createdAt := isoNow env |} in
  let archived :=
    EStat archivePath :: EListTar archivePath cm :: ECreateTar dir cachePaths cm
      :: trace (saveStarted paths bucket w) in
  SaveReachesArchive env paths bucket prefixInput cm cachePaths dir →
  createTar env dir cachePaths cm = {| completion := Ret tt; leaves := Some size |} →
  size ≠ 0%N →
  listTar env archivePath cm = Ret tt →
  ∃ id,
    (saveToGCS env paths key w).1 = Ret id ∧
    (id = 1%Z ∨ id = (-1)%Z) ∧
    ((0 < id)%Z ↔
       upload env bucket archivePath gcsPath meta = Ret tt ∧
       fileExists env bucket gcsPath = Ret true) ∧
    (upload env bucket archivePath gcsPath meta = Ret tt →
     fileExists env bucket gcsPath ≠ Ret true → id = (-1)%Z) ∧
    trace (saveToGCS env paths key w).2 =
      EUnlink archivePath ::
      match upload env bucket archivePath gcsPath meta with
      | Ret _ =>
          match fileExists env bucket gcsPath with
          | Ret true => []
          | Ret false =>
              [EWarn "Upload appeared to succeed but file not found in GCS"]
          | Throw e => [EWarn ("Error creating or uploading cache: " +:+ e)]
          end ++ [EFileExists bucket gcsPath; EUpload bucket archivePath gcsPath meta]
      | Throw e =>
          [EWarn ("Error creating or uploading cache: " +:+ e);
           EUpload bucket archivePath gcsPath meta]
      end ++ archived.
Proof.
  intros archivePath gcsPath meta archived Hreach Htar Hsize Hlist.
  rewrite (saveToGCS_reached _ _ _ _ _ _ _ _ _ Hreach), try_finally_cleanup.
  cbn [fst snd].
  destruct (cleanupArchive_spec env (archivePathIn env dir cm)
              (try_catch
                 (saveToGCS_try env bucket (or_else prefixInput DEFAULT_PATH_PREFIX)
                    key cm dir (archivePathIn env dir cm) cachePaths)
                 saveToGCS_catch (saveStarted paths bucket w)).2) as (_ & -> & _).
  rewrite (saveToGCS_try_upload _ _ _ _ _ _ _ _ size) by done.
  rewrite (saveToGCS_try_upload_trace _ _ _ _ _ _ _ _ size) by done.
  fold archivePath gcsPath meta archived.
  destruct (upload env bucket archivePath gcsPath meta) as [[]|e].
  - destruct (fileExists env bucket gcsPath) as [[|]|e].
    + exists 1%Z. split_and!; [done | by left | done | done | done].
    + exists (-1)%Z. split_and!; [done | by right | | done | done].
      split; [lia | by intros [_ ?]].
    + exists (-1)%Z. split_and!; [done | by right | | done | done].
      split; [lia | by intros [_ ?]].
  - exists (-1)%Z. split_and!; [done | by right | | done | done].
    split; [lia | by intros [? _]].
Qed.

Lemma saveToGCS_success_iff_probe_witness :
  (saveToGCS healthy ["x"] "k" idle).1 = Ret 1%Z ∧
  (saveToGCS healthy ["x"] "unseen" idle).1 = Ret (-1)%Z ∧
  probes (trace (saveToGCS healthy ["x"] "unseen" idle).2) =
    ["github-cache/unseen.cache.tzst"].
Proof.
  assert (SaveReachesArchive healthy ["x"] "cache-bucket" EmptyString Zstd ["x"]
            "/tmp/a1") as Hreach by (by repeat split).
  assert (10%N ≠ 0%N) as Hsize by discriminate.
  split_and!.
  - destruct (saveToGCS_success_iff_probe healthy ["x"] "k" idle "cache-bucket"
                EmptyString Zstd ["x"] "/tmp/a1" 10%N Hreach eq_refl Hsize eq_refl)
      as (id & -> & [-> | ->] & [_ Hpos] & _); [reflexivity |].
    specialize (Hpos (conj eq_refl eq_refl)). lia.
  - destruct (saveToGCS_success_iff_probe healthy ["x"] "unseen" idle "cache-bucket"
                EmptyString Zstd ["x"] "/tmp/a1" 10%N Hreach eq_refl Hsize eq_refl)
      as (id & -> & _ & _ & Hneg & _).
    f_equal. apply Hneg; [reflexivity | discriminate].
  - destruct (saveToGCS_success_iff_probe healthy ["x"] "unseen" idle "cache-bucket"
                EmptyString Zstd ["x"] "/tmp/a1" 10%N Hreach eq_refl Hsize eq_refl)
      as (id & _ & _ & _ & _ & ->).
    reflexivity.
Defined.

(** ** The claim about the temporary archive *)




(** ** The claim about the value a remote restore returns *)

Lemma isExactKeyMatch_object_path {W} compare (weights : string → list W)
    env pathPrefix cm key :
  CollatesByWeights compare weights →
  isExactKeyMatch compare key (Some (getGCSPath env pathPrefix key cm)) = false.
Proof.
  intros [Happ Hslash Hzero]. unfold isExactKeyMatch.
  pose proof (getGCSPath_truthy env pathPrefix cm key) as T.
  simpl in T. apply negb_true_iff in T. rewrite T.
  apply Z.eqb_neq. intros Hz. apply Hzero in Hz.
  unfold getGCSPath in Hz. rewrite !Happ in Hz.
  apply (f_equal length) in Hz. rewrite !length_app in Hz.
  destruct (weights "/") as [|c cs]; [done |]. simpl in Hz. lia.
Qed.

Lemma foldCase_app a b :
  AsciiCollation.foldCase (a +:+ b) =
  AsciiCollation.foldCase a +:+ AsciiCollation.foldCase b.
Proof.
  induction a as [|c a IH]; [done |].
  change (String c a +:+ b) with (String c (a +:+ b)).
  cbn [AsciiCollation.foldCase]. rewrite IH. reflexivity.
Qed.

Lemma list_ascii_of_string_app a b :
  String.list_ascii_of_string (a +:+ b) =
  String.list_ascii_of_string a ++ String.list_ascii_of_string b.
Proof.
  induction a as [|c a IH]; [done |].
  change (String c a +:+ b) with (String c (a +:+ b)).
  cbn [String.list_ascii_of_string]. rewrite IH. reflexivity.
Qed.

Lemma AsciiCollation_collates :
  CollatesByWeights AsciiCollation.localeCompareAccent AsciiCollation.weights.
Proof.
  split.
  - intros a b. unfold AsciiCollation.weights.
    by rewrite foldCase_app, list_ascii_of_string_app.
  - discriminate.
  - intros a b. unfold AsciiCollation.localeCompareAccent, AsciiCollation.weights.
    destruct (String.compare _ _) eqn:E; [| discriminate | discriminate].
    apply String.compare_eq_iff in E. by rewrite E.
Qed.

(** C10, as the code has it.  When the remote restore reports a match,
    in lookup-only mode or after a download, [restoreCache] returns the
    object path [prefix/key.extension] of the candidate key that matched,
    not that key.  The returned value therefore differs from the matched
    key and fails the exact-key-match test against it; in particular,
    when the match is the primary key itself, the returned value differs
    from [primaryKey] and the exact-key-match test against [primaryKey]
    fails. *)
Theorem restoreCache_returns_object_path {W} compare (weights : string → list W)
    env paths primaryKey restoreKeys options x w bucket value :
  CollatesByWeights compare weights →
  bucketConfigured env bucket →
  (restoreFromGCS env paths primaryKey restoreKeys options w).1 = Ret (Some value) →
  (restoreCache env paths primaryKey restoreKeys options x w).1 = Ret (Some value) ∧
  ∃ prefixInput cm matched,
    getInput env GCSPathPrefix = Ret prefixInput ∧
    getCompressionMethod env = Ret cm ∧
    matched ∈ primaryKey :: default [] restoreKeys ∧
    value = getGCSPath env (or_else prefixInput DEFAULT_PATH_PREFIX) matched cm ∧
    firstExisting env bucket (or_else prefixInput DEFAULT_PATH_PREFIX) cm
      (primaryKey :: default [] restoreKeys) = Some value ∧
    value ≠ matched ∧
    isExactKeyMatch compare matched (Some value) = false ∧
    (matched = primaryKey →
     value ≠ primaryKey ∧ isExactKeyMatch compare primaryKey (Some value) = false).
Proof.
  intros Hcollate [Hb Hne] Hvalue.
  destruct (restoreFromGCS_Some _ _ _ _ _ _ _ Hvalue)
    as (b & p & cm & [Hc Hb' Hp Hm He] & Hf).
  assert (b = bucket) as -> by congruence.
  pose proof Hf as Hf'.
  apply firstExisting_Some in Hf' as (matched & Hin & -> & _).
  split.
  - rewrite (restoreCache_after_remote _ _ _ _ _ _ _ bucket) by done.
    destruct (restoreFromGCS env paths primaryKey restoreKeys options w)
      as [r w1]. simpl in Hvalue. subst r. by rewrite getGCSPath_truthy.
  - exists p, cm, matched.
    pose proof (getGCSPath_not_key env (or_else p DEFAULT_PATH_PREFIX) cm matched).
    pose proof (isExactKeyMatch_object_path compare weights env
                  (or_else p DEFAULT_PATH_PREFIX) cm matched Hcollate).
    split_and!; try done. by intros <-.
Qed.

Lemma restoreCache_returns_object_path_witness :
  (restoreCache healthy ["x"] "k" None None None idle).1 =
    Ret (Some "github-cache/k.cache.tzst") ∧
  isExactKeyMatch AsciiCollation.localeCompareAccent "k"
    (Some "github-cache/k.cache.tzst") = false.
Proof.
  assert (bucketConfigured healthy "cache-bucket") as Hc by (by split).
  assert ((restoreFromGCS healthy ["x"] "k" None None idle).1 =
          Ret (Some "github-cache/k.cache.tzst")) as Hv by reflexivity.
  destruct (restoreCache_returns_object_path AsciiCollation.localeCompareAccent
              AsciiCollation.weights healthy ["x"] "k" None None None idle
              "cache-bucket" "github-cache/k.cache.tzst"
              AsciiCollation_collates Hc Hv) as [Hr _].
  split; [exact Hr | reflexivity].
Defined.

(** C10 does not hold as stated: when the primary key is spelled like
    the object path of a restore key, the value returned for that restore
    key is the primary key, character for character. *)
Lemma restored_value_can_equal_primaryKey :
  (restoreCache pathLikeKey ["x"] "github-cache/foo.cache.tzst" (Some ["foo"])
     None None idle).1 = Ret (Some "github-cache/foo.cache.tzst") ∧
  ¬ Claimed.restored_value_is_not_primaryKey pathLikeKey ["x"]
      "github-cache/foo.cache.tzst" (Some ["foo"]) None None idle.
Proof.
  split; [reflexivity |].
  intros H.
  destruct (H "github-cache/foo.cache.tzst" eq_refl) as (_ & Hne & _).
  by apply Hne.
Qed.

(** * More of the code *)

(** ** The coordinator, whatever the configuration *)

Lemma isGCSAvailable_run env w :
  isGCSAvailable env w = (Ret (configured env), w).
Proof.
  unfold isGCSAvailable, configured. unfold_monad.
  destruct (getInput env GCSBucket) as [bucket|e]; [| done].
  by destruct (String.eqb bucket EmptyString).
Qed.

Lemma restoreCache_unconfigured env paths primaryKey restoreKeys options x w :
  configured env = false →
  restoreCache env paths primaryKey restoreKeys options x w =
  LocalOnly.restoreCache env paths primaryKey restoreKeys options x w.
Proof.
  intros Hc. unfold restoreCache.
  rewrite (bind_run _ _ _ false) by (by rewrite isGCSAvailable_run, Hc).
  by rewrite isGCSAvailable_run.
Qed.

Lemma saveCache_unconfigured env paths key options x w :
  configured env = false →
  saveCache env paths key options x w =
  LocalOnly.saveCache env paths key options x w.
Proof.
  intros Hc. unfold saveCache.
  rewrite (bind_run _ _ _ false) by (by rewrite isGCSAvailable_run, Hc).
  by rewrite isGCSAvailable_run.
Qed.

Lemma configured_bucket env :
  configured env = true → ∃ bucket, bucketConfigured env bucket.
Proof.
  unfold configured, bucketConfigured.
  destruct (getInput env GCSBucket) as [bucket|e]; [| done].
  intros H. exists bucket. split; [done |].
  apply negb_true_iff in H. by apply String.eqb_neq.
Qed.

(** X1.  Nothing that goes wrong in the remote tier reaches the caller
    of the coordinator.  Whatever the configuration and whatever the
    collaborators answer, [restoreCache] ends either with an object path
    found remotely (the remote tier got past its set-up and the value is
    the first candidate path, in the order primary key then restore keys,
    whose probe answered [true]) or with exactly the outcome of the local
    cache service, and [saveCache] ends either with one of the two ids of
    the remote tier or with exactly the outcome of the local cache
    service: an exception leaves the coordinator only if the local cache
    service threw it. *)
Theorem coordinator_outcome_remote_or_local env paths primaryKey key restoreKeys
    options uploadOptions x w :
  ((∃ value bucket prefixInput cm,
      (restoreCache env paths primaryKey restoreKeys options x w).1 =
        Ret (Some value) ∧
      TierReady env bucket prefixInput cm ∧
      firstExisting env bucket (or_else prefixInput DEFAULT_PATH_PREFIX) cm
        (primaryKey :: default [] restoreKeys) = Some value ∧
      (∃ k, k ∈ primaryKey :: default [] restoreKeys ∧
            value = getGCSPath env (or_else prefixInput DEFAULT_PATH_PREFIX) k cm ∧
            fileExists env bucket value = Ret true)) ∨
   (restoreCache env paths primaryKey restoreKeys options x w).1 =
     localRestore env paths primaryKey restoreKeys options x) ∧
  ((saveCache env paths key uploadOptions x w).1 = Ret 1%Z ∨
   (saveCache env paths key uploadOptions x w).1 = Ret (-1)%Z ∨
   (saveCache env paths key uploadOptions x w).1 =
     localSave env paths key uploadOptions x).
Proof.
  destruct (configured env) eqn:Hc.
  - destruct (configured_bucket env Hc) as (bucket & Hb & Hne). split.
    + rewrite (restoreCache_after_remote _ _ _ _ _ _ _ bucket) by done.
      pose proof (restoreFromGCS_Some env paths primaryKey restoreKeys options w)
        as Hfound.
      destruct (restoreFromGCS env paths primaryKey restoreKeys options w)
        as [[result|e] w1]; [| by right].
      destruct (truthy_string result) eqn:Ht; [| by right].
      left. destruct result as [value|]; [| done].
      destruct (Hfound value eq_refl) as (b & p & cm & Hready & Hfirst).
      exists value, b, p, cm. split_and!; [done | done | done |].
      apply firstExisting_Some in Hfirst as (k & Hk & Hv & Hp).
      exists k. split_and!; [done | done |].
      unfold present in Hp. by destruct (fileExists env b value) as [[|]|].
    + rewrite (saveCache_after_remote _ _ _ _ _ _ bucket) by done.
      pose proof (saveToGCS_sentinel env paths key w) as Hs.
      destruct (saveToGCS env paths key w) as [[n|e] w1];
        [| by right; right].
      destruct (Hs n eq_refl) as [-> | ->]; [by left | by right; left].
  - split.
    + right. by rewrite restoreCache_unconfigured.
    + right; right. by rewrite saveCache_unconfigured.
Qed.

(** X2.  With a bucket configured, [saveCache] returns whatever the
    remote tier returns, which is always [1] or [-1], and then makes no
    call to the local cache service; the local cache service is called,
    after a warning, exactly when the remote tier throws, and then its
    outcome is the outcome of the save. *)
Theorem saveCache_remote_then_local env paths key options x w bucket :
  bucketConfigured env bucket →
  (∃ new,
     trace (saveToGCS env paths key w).2 = new ++ trace w ∧
     Forall not_local new) ∧
  match saveToGCS env paths key w with
  | (Ret id, w1) =>
      (id = 1%Z ∨ id = (-1)%Z) ∧
      saveCache env paths key options x w = (Ret id, w1)
  | (Throw e, w1) =>
      saveCache env paths key options x w =
      (localSave env paths key options x,
       record (ELocalSave paths key options x)
         (record (EWarn ("Failed to save to GCS: " +:+ e)) w1))
  end.
Proof.
  intros [Hb Hne]. split; [apply saveToGCS_emits |].
  rewrite (saveCache_after_remote _ _ _ _ _ _ bucket) by done.
  pose proof (saveToGCS_sentinel env paths key w) as Hs.
  destruct (saveToGCS env paths key w) as [[n|e] w1]; [| done].
  destruct (Hs n eq_refl) as [-> | ->]; split; auto.
Qed.

Lemma saveCache_remote_then_local_witness :
  (saveCache healthy ["x"] "k" None None idle).1 = Ret 1%Z ∧
  (saveCache emptyPaths ["nothing"] "k" None None idle).1 = Throw validationError.
Proof.
  assert (bucketConfigured healthy "cache-bucket") as Hh by (by split).
  assert (bucketConfigured emptyPaths "cache-bucket") as He by (by split).
  split.
  - pose proof (proj2 (saveCache_remote_then_local healthy ["x"] "k" None None
                         idle "cache-bucket" Hh)) as [_ H].
    by rewrite H.
  - pose proof (proj2 (saveCache_remote_then_local emptyPaths ["nothing"] "k" None
                         None idle "cache-bucket" He)) as H.
    by rewrite H.
Defined.

(** ** What each operation may call *)

Lemma emits_weaken {A} (P Q : Event → Prop) (m : M A) :
  (∀ e, P e → Q e) → emits P m → emits Q m.
Proof.
  intros HPQ Hm w. destruct (Hm w) as (new & E & F).
  exists new. split; [done |]. by eapply Forall_impl.
Qed.

Lemma emits_omap_none {A B} (P : Event → Prop) (f : Event → option B) (m : M A) w :
  emits P m → (∀ e, P e → f e = None) →
  omap f (trace (m w).2) = omap f (trace w).
Proof.
  intros Hm Hf. destruct (Hm w) as (new & -> & F).
  rewrite omap_app. induction F as [|e new He _ IH]; [done |].
  simpl. by rewrite (Hf e He).
Qed.

Lemma isGCSAvailable_emits P env : emits P (isGCSAvailable env).
Proof. unfold isGCSAvailable. effects. Qed.

Lemma restoreFromGCS_calls env paths primaryKey restoreKeys options :
  emits (λ e, restore_call e = true ∧ is_local e = false)
    (restoreFromGCS env paths primaryKey restoreKeys options).
Proof.
  unfold restoreFromGCS.
  apply emits_bind; [by apply getGCSClient_emits |]. intros [s|]; [| effects].
  do 3 (apply emits_bind; [effects |]; intros ?).
  apply emits_bind; [by apply verifyBucket_emits |]. intros [r|]; [effects |].
  apply emits_bind; [by apply ensureDirectories_emits |]. intros _.
  apply emits_bind; [effects |]. intros dir.
  apply emits_bind; [by apply findFileOnGCS_emits |]. intros [o|]; [| effects].
  do 2 (case_match; [effects |]).
  apply emits_try_finally; [| unfold cleanupArchive; effects].
  apply emits_try_catch; [| intros e; unfold restoreFromGCS_catch; effects].
  unfold restoreFromGCS_try.
  apply emits_bind; [effects |]. intros _.
  apply emits_bind; [by apply checkArchive_emits |]. intros [r|]; [effects |].
  do 3 (apply emits_bind; [effects |]; intros ?).
  apply emits_bind; [by apply verifyExtraction_emits |]. intros ?. effects.
Qed.

Lemma saveToGCS_calls env paths key :
  emits (λ e, save_call e = true ∧ is_local e = false) (saveToGCS env paths key).
Proof.
  unfold saveToGCS.
  apply emits_bind; [by apply getGCSClient_emits |]. intros [s|]; [| effects].
  do 3 (apply emits_bind; [effects |]; intros ?).
  apply emits_bind; [by apply verifyBucket_emits |]. intros [r|]; [effects |].
  apply emits_bind; [effects |]. intros cachePaths.
  case_match; [effects |].
  apply emits_bind; [effects |]. intros dir.
  apply emits_try_finally; [| unfold cleanupArchive; effects].
  apply emits_try_catch; [| intros e; unfold saveToGCS_catch; effects].
  unfold saveToGCS_try.
  do 2 (apply emits_bind; [effects |]; intros ?).
  apply emits_bind; [by apply checkArchive_emits |]. intros [r|]; effects.
Qed.

(** X3.  A restore never writes and a save never reads back.  Whatever
    the configuration and the answers of the collaborators, the calls
    [restoreCache] makes are warnings, the set-up, probes and listings of
    the bucket, a download with its checks and extraction, the unlink of
    the archive and the local restore: never an upload, an archiving or a
    local save.  The calls [saveCache] makes are warnings, the set-up,
    path resolution, archiving, an upload with its probe, the unlink of
    the archive and the local save: never a download, a listing, an
    extraction, a directory creation or a local restore. *)
Theorem restore_never_writes_save_never_reads env paths primaryKey key restoreKeys
    options uploadOptions x :
  emits (λ e, restore_call e = true)
    (restoreCache env paths primaryKey restoreKeys options x) ∧
  emits (λ e, save_call e = true) (saveCache env paths key uploadOptions x).
Proof.
  split.
  - unfold restoreCache.
    apply emits_bind; [apply isGCSAvailable_emits |]. intros available.
    apply emits_bind; [| intros [r|]; effects].
    destruct available; [| effects].
    apply emits_try_catch; [| intros e; effects].
    apply emits_bind; [| intros r; effects].
    eapply emits_weaken; [| apply restoreFromGCS_calls]. by intros e [? _].
  - unfold saveCache.
    apply emits_bind; [apply isGCSAvailable_emits |]. intros available.
    apply emits_bind; [| intros [r|]; effects].
    destruct available; [| effects].
    apply emits_try_catch; [| intros e; effects].
    apply emits_bind; [| intros r; effects].
    eapply emits_weaken; [| apply saveToGCS_calls]. by intros e [? _].
Qed.

(** ** The set-up of the remote tier *)

(** X4.  Both remote tiers stop at the first thing that fails in their
    set-up.  When the storage client cannot be created they log two
    warnings and return their failure value ([-1], [undefined]) without
    any call to the bucket.  When the client is there but the bucket probe
    answers [false] or throws, they log one warning and return their
    failure value after that single probe: no path is resolved, no
    directory is created and no object is probed. *)
Theorem remote_tier_stops_at_setup env paths key primaryKey restoreKeys options w :
  (∀ e, newStorage env = Throw e →
     saveToGCS env paths key w =
       (Ret (-1)%Z,
        record (EWarn "Failed to initialize GCS client, cannot save cache")
          (record (EWarn ("Failed to initialize GCS client: " +:+ e))
             (record ENewStorage w))) ∧
     restoreFromGCS env paths primaryKey restoreKeys options w =
       (Ret None,
        record (EWarn "Failed to initialize GCS client, cannot restore cache")
          (record (EWarn ("Failed to initialize GCS client: " +:+ e))
             (record ENewStorage w)))) ∧
  (∀ bucket prefixInput cm,
     newStorage env = Ret tt →
     getInput env GCSBucket = Ret bucket →
     getInput env GCSPathPrefix = Ret prefixInput →
     getCompressionMethod env = Ret cm →
     bucketExists env bucket ≠ Ret true →
     ∃ msg,
       saveToGCS env paths key w =
         (Ret (-1)%Z, record (EWarn msg) (readied bucket w)) ∧
       restoreFromGCS env paths primaryKey restoreKeys options w =
         (Ret None, record (EWarn msg) (readied bucket w))).
Proof.
  split.
  - intros e He. unfold saveToGCS, restoreFromGCS.
    split; run_step; by rewrite He.
  - intros bucket prefixInput cm Hc Hb Hp Hm He.
    unfold saveToGCS, restoreFromGCS.
    destruct (bucketExists env bucket) as [[|]|e] eqn:Hx; [done | |].
    + eexists. split.
      * run_step. rewrite Hc. run_step. rewrite Hb. run_step. rewrite Hp.
        run_step. rewrite Hm. run_step. rewrite Hx. reflexivity.
      * run_step. rewrite Hc. run_step. rewrite Hb. run_step. rewrite Hp.
        run_step. rewrite Hm. run_step. rewrite Hx. reflexivity.
    + eexists. split.
      * run_step. rewrite Hc. run_step. rewrite Hb. run_step. rewrite Hp.
        run_step. rewrite Hm. run_step. rewrite Hx. reflexivity.
      * run_step. rewrite Hc. run_step. rewrite Hb. run_step. rewrite Hp.
        run_step. rewrite Hm. run_step. rewrite Hx. reflexivity.
Qed.

Lemma remote_tier_stops_at_setup_witness :
  (saveToGCS missingBucket ["x"] "k" idle).1 = Ret (-1)%Z ∧
  (restoreFromGCS missingBucket ["x"] "k" None None idle).1 = Ret None.
Proof.
  assert (bucketExists missingBucket "non-existent-bucket-for-test" ≠ Ret true)
    as Hx by discriminate.
  destruct (proj2 (remote_tier_stops_at_setup missingBucket ["x"] "k" "k" None
                     None idle)
              "non-existent-bucket-for-test" EmptyString Zstd
              eq_refl eq_refl eq_refl eq_refl Hx) as (msg & Hs & Hr).
  by rewrite Hs, Hr.
Defined.

(** ** Directory creation and the resolver's listing *)

Lemma ensureDirectories_mkdirs env paths w :
  mkdirs (trace (ensureDirectories env paths w).2) =
  rev (map (dirname env) paths) ++ mkdirs (trace w).
Proof.
  revert w. induction paths as [|p paths IH]; intros w; [done |].
  cbn [ensureDirectories]. unfold_monad.
  destruct (mkdir env (dirname env p)) as [[]|e];
    rewrite IH; cbn [map rev]; by rewrite <- (assoc_L (++)).
Qed.

(** X5.  Creating the parent directories never aborts a restore: the
    loop always runs to its end, whatever [mkdir] answers, it asks for the
    parent of every requested path, in the order of the paths, failures
    included, and it touches no temporary file. *)
Theorem ensureDirectories_attempts_all env paths w :
  (ensureDirectories env paths w).1 = Ret tt ∧
  mkdirs (trace (ensureDirectories env paths w).2) =
    rev (map (dirname env) paths) ++ mkdirs (trace w) ∧
  tmpfs (ensureDirectories env paths w).2 = tmpfs w.
Proof.
  split_and!.
  - apply ensureDirectories_ret.
  - apply ensureDirectories_mkdirs.
  - apply ensureDirectories_keeps.
Qed.

Lemma listed_record e w :
  listed (trace (record e w)) =
  match e with EGetFiles _ p => [p] | _ => [] end ++ listed (trace w).
Proof. by destruct e. Qed.

(** X6.  The resolver lists the prefix exactly when no candidate was a
    hit, and once; the listing is for the log only: whether it succeeds or
    throws, the resolver returns no match and throws nothing. *)
Theorem findFileOnGCS_lists_on_miss env bucket pathPrefix cm keys w :
  let run := findFileOnGCS env StorageClient bucket pathPrefix keys cm w in
  listed (trace run.2) =
    match firstExisting env bucket pathPrefix cm keys with
    | Some _ => []
    | None => [pathPrefix]
    end ++ listed (trace w) ∧
  (firstExisting env bucket pathPrefix cm keys = None ↔ run.1 = Ret None).
Proof.
  intros run. subst run. split.
  - rewrite findFileOnGCS_run. cbv zeta.
    assert (listed (trace (findFileOnGCS_loop env StorageClient bucket pathPrefix
                             keys cm w).2) = listed (trace w)) as Hloop.
    { apply (emits_omap_none (λ e, ∀ b p, e ≠ EGetFiles b p)).
      - by apply findFileOnGCS_loop_emits.
      - intros [] He; try done. by destruct (He bucket0 pathPrefix0). }
    destruct (firstExisting env bucket pathPrefix cm keys); [exact Hloop |].
    destruct (getFiles env bucket pathPrefix); cbn [snd];
      rewrite !listed_record, Hloop; reflexivity.
  - rewrite findFileOnGCS_result. split; [by intros -> | by intros [= ->]].
Qed.

(** ** Lookup-only restores *)

Lemma restoreResolved_keeps env paths primaryKey restoreKeys bucket prefixInput cm w :
  tmpfs (restoreResolved env paths primaryKey restoreKeys bucket prefixInput cm w)
  = tmpfs w.
Proof.
  unfold restoreResolved. rewrite findFileOnGCS_keeps. cbn [record tmpfs].
  by rewrite ensureDirectories_keeps.
Qed.

Lemma restoreResolved_calls env paths primaryKey restoreKeys bucket prefixInput cm w :
  ∃ new,
    trace (restoreResolved env paths primaryKey restoreKeys bucket prefixInput cm w)
      = new ++ trace w ∧
    Forall (λ e, lookup_call e = true) new.
Proof.
  unfold restoreResolved.
  destruct (findFileOnGCS_emits env StorageClient bucket
              (or_else prefixInput DEFAULT_PATH_PREFIX) cm
              (λ e, lookup_call e = true) (primaryKey :: default [] restoreKeys)
              (λ _, eq_refl) (λ _, eq_refl) eq_refl
              (record ECreateTempDirectory
                 (ensureDirectories env paths (readied bucket w)).2))
    as (n2 & E2 & F2).
  destruct (ensureDirectories_emits (λ e, lookup_call e = true) env paths
              (λ _, eq_refl) (λ _, eq_refl) (readied bucket w)) as (n1 & E1 & F1).
  exists (n2 ++ [ECreateTempDirectory] ++ n1
          ++ [EBucketExists bucket; EGetCompressionMethod; ENewStorage]).
  split.
  - rewrite E2. cbn [record trace]. rewrite E1. cbn [readied record trace].
    by rewrite <- !(assoc_L (++)).
  - apply Forall_app; split; [done |].
    apply Forall_app; split; [by repeat constructor |].
    apply Forall_app; split; [done | by repeat constructor].
Qed.

Lemma findFileOnGCS_mkdirs env storage bucket pathPrefix keys cm w :
  mkdirs (trace (findFileOnGCS env storage bucket pathPrefix keys cm w).2) =
  mkdirs (trace w).
Proof.
  apply (emits_omap_none (λ e, ∀ d, e ≠ EMkdir d)).
  - by apply findFileOnGCS_emits.
  - intros [] He; try done. by destruct (He dir).
Qed.

Lemma restoreResolved_mkdirs env paths primaryKey restoreKeys bucket prefixInput cm w :
  mkdirs (trace (restoreResolved env paths primaryKey restoreKeys bucket
                   prefixInput cm w)) =
  rev (map (dirname env) paths) ++ mkdirs (trace w).
Proof.
  unfold restoreResolved. rewrite findFileOnGCS_mkdirs.
  change (mkdirs (trace (ensureDirectories env paths (readied bucket w)).2) =
          rev (map (dirname env) paths) ++ mkdirs (trace w)).
  by rewrite ensureDirectories_mkdirs.
Qed.

Lemma restoreFromGCS_lookup env paths primaryKey restoreKeys options w
    bucket prefixInput cm dir gcsPath :
  TierReady env bucket prefixInput cm →
  createTempDirectory env = Ret dir →
  firstExisting env bucket (or_else prefixInput DEFAULT_PATH_PREFIX) cm
    (primaryKey :: default [] restoreKeys) = Some gcsPath →
  lookupOnly_set options = true →
  restoreFromGCS env paths primaryKey restoreKeys options w =
  (Ret (Some gcsPath),
   restoreResolved env paths primaryKey restoreKeys bucket prefixInput cm w).
Proof.
  intros [Hc Hb Hp Hm He] Hd Hf Hl. unfold restoreFromGCS.
  run_step. rewrite Hc. run_step. rewrite Hb. run_step. rewrite Hp.
  run_step. rewrite Hm. run_step. rewrite He. run_step. run_step. rewrite Hd.
  run_step. rewrite Hf.
  apply firstExisting_Some in Hf as (k & _ & -> & _).
  pose proof (getGCSPath_truthy env (or_else prefixInput DEFAULT_PATH_PREFIX) cm k)
    as T.
  simpl in T. apply negb_true_iff in T. by rewrite T, Hl.
Qed.

(** X7.  A lookup-only restore that finds a match returns the object
    path found by the resolver without downloading anything: it makes no
    call but the set-up, the directory creations, the probes (and no
    download, extraction or unlink), and it touches no temporary file.  It
    does create the parent directory of every requested path and a
    temporary directory all the same. *)
Theorem lookup_only_restore_transfers_nothing env paths primaryKey restoreKeys
    options w bucket prefixInput cm dir gcsPath :
  TierReady env bucket prefixInput cm →
  createTempDirectory env = Ret dir →
  firstExisting env bucket (or_else prefixInput DEFAULT_PATH_PREFIX) cm
    (primaryKey :: default [] restoreKeys) = Some gcsPath →
  lookupOnly_set options = true →
  let run := restoreFromGCS env paths primaryKey restoreKeys options w in
  run.1 = Ret (Some gcsPath) ∧
  tmpfs run.2 = tmpfs w ∧
  (∃ new, trace run.2 = new ++ trace w ∧
          Forall (λ e, lookup_call e = true) new ∧
          ECreateTempDirectory ∈ new) ∧
  mkdirs (trace run.2) = rev (map (dirname env) paths) ++ mkdirs (trace w).
Proof.
  intros Hready Hd Hf Hl run. subst run.
  rewrite (restoreFromGCS_lookup _ _ _ _ _ _ bucket prefixInput cm dir gcsPath)
    by done.
  cbn [fst snd]. split_and!.
  - done.
  - apply restoreResolved_keeps.
  - destruct (restoreResolved_calls env paths primaryKey restoreKeys bucket
                prefixInput cm w) as (new & E & F).
    exists new. split_and!; [done | done |].
    unfold restoreResolved in E.
    destruct (findFileOnGCS_emits env StorageClient bucket
                (or_else prefixInput DEFAULT_PATH_PREFIX) cm (λ _, True)
                (primaryKey :: default [] restoreKeys)
                (λ _, I) (λ _, I) I
                (record ECreateTempDirectory
                   (ensureDirectories env paths (readied bucket w)).2))
      as (n2 & E2 & _).
    destruct (ensureDirectories_emits (λ _, True) env paths
                (λ _, I) (λ _, I) (readied bucket w)) as (n1 & E1 & _).
    rewrite E2 in E. cbn [record trace] in E. rewrite E1 in E.
    cbn [readied record trace] in E.
    assert (new = n2 ++ [ECreateTempDirectory] ++ n1
                  ++ [EBucketExists bucket; EGetCompressionMethod; ENewStorage])
      as ->.
    { apply (app_inv_tail (trace w)). rewrite <- E.
      by rewrite <- !(assoc_L (++)). }
    set_solver.
  - apply restoreResolved_mkdirs.
Qed.

Lemma lookup_only_restore_transfers_nothing_witness :
  restoreFromGCS healthy ["a/x"; "b/y"] "k" None
    (Some {| lookupOnly := Some true; timeoutInMs := None |}) idle =
  (Ret (Some "github-cache/k.cache.tzst"),
   {| trace := [EFileExists "cache-bucket" "github-cache/k.cache.tzst";
                ECreateTempDirectory; EMkdir "."; EMkdir ".";
                EBucketExists "cache-bucket"; EGetCompressionMethod; ENewStorage];
      tmpfs := ∅ |}).
Proof.
  assert (TierReady healthy "cache-bucket" EmptyString Zstd) as Hready
    by (by split).
  pose proof (lookup_only_restore_transfers_nothing healthy ["a/x"; "b/y"] "k" None
                (Some {| lookupOnly := Some true; timeoutInMs := None |}) idle
                "cache-bucket" EmptyString Zstd "/tmp/a1"
                "github-cache/k.cache.tzst" Hready eq_refl eq_refl eq_refl)
    as (Hr & _).
  destruct (restoreFromGCS healthy ["a/x"; "b/y"] "k" None
              (Some {| lookupOnly := Some true; timeoutInMs := None |}) idle)
    as [r w1] eqn:E.
  simpl in Hr. subst r. injection E as <-. reflexivity.
Defined.

(** ** A full restore *)







(** ** A save followed by a restore *)

Lemma saveToGCS_try_success env bucket pathPrefix key cm dir archivePath cachePaths w :
  (try_catch
     (saveToGCS_try env bucket pathPrefix key cm dir archivePath cachePaths)
     saveToGCS_catch w).1 = Ret 1%Z →
  fileExists env bucket (getGCSPath env pathPrefix key cm) = Ret true.
Proof.
  unfold saveToGCS_try, saveToGCS_catch, checkArchive, statSize.
  unfold_monad. intros H.
  repeat (case_match; simplify_eq/=); done.
Qed.

(** X9.  A save that the remote tier reports as a success can be found
    again under its key.  If [saveToGCS] returns [1] then, as long as the
    collaborators keep answering the same, the resolver run with that key
    as primary key, whatever the restore keys, hits at its first probe
    and finds the object the save uploaded to; a lookup-only restore of
    that key returns that object path. *)
Theorem saved_key_is_found env paths key w :
  (saveToGCS env paths key w).1 = Ret 1%Z →
  ∃ bucket prefixInput cm,
    TierReady env bucket prefixInput cm ∧
    let object := getGCSPath env (or_else prefixInput DEFAULT_PATH_PREFIX) key cm in
    (∀ storage restoreKeys w',
       let run := findFileOnGCS env storage bucket
                    (or_else prefixInput DEFAULT_PATH_PREFIX)
                    (key :: restoreKeys) cm w' in
       run.1 = Ret (Some object) ∧
       probes (trace run.2) = object :: probes (trace w')) ∧
    (∀ paths' restoreKeys options w',
       lookupOnly_set options = true →
       (restoreFromGCS env paths' key restoreKeys options w').1 =
       Ret (Some object)).
Proof.
  intros Hsaved.
  destruct (saveToGCS_cases env paths key w)
    as [[_ E] | [[_ [e E]] | (b & p & cm & cps & dir & Hreach)]].
  - rewrite E in Hsaved. discriminate.
  - rewrite E in Hsaved. discriminate.
  - rewrite (saveToGCS_reached _ _ _ _ _ _ _ _ _ Hreach), try_finally_cleanup
      in Hsaved.
    apply saveToGCS_try_success in Hsaved.
    destruct Hreach as [Hready _ _ Hd].
    exists b, p, cm. split; [done |]. cbv zeta.
    assert (∀ restoreKeys,
              firstExisting env b (or_else p DEFAULT_PATH_PREFIX) cm
                (key :: restoreKeys) =
              Some (getGCSPath env (or_else p DEFAULT_PATH_PREFIX) key cm)) as Hfirst.
    { intros rks. unfold firstExisting. cbn [map List.find].
      unfold present at 1. by rewrite Hsaved. }
    split.
    + intros storage rks w'. split.
      * by rewrite findFileOnGCS_result, Hfirst.
      * rewrite findFileOnGCS_probes. cbn [map scanned].
        unfold present at 1. by rewrite Hsaved.
    + intros paths' rks options w' Hl.
      by rewrite (restoreFromGCS_lookup _ _ _ _ _ _ b p cm dir
                    (getGCSPath env (or_else p DEFAULT_PATH_PREFIX) key cm)).
Qed.

Lemma saved_key_is_found_witness :
  (restoreFromGCS healthy ["x"] "k" (Some ["older"])
     (Some {| lookupOnly := Some true; timeoutInMs := None |}) idle).1 =
  Ret (Some "github-cache/k.cache.tzst").
Proof.
  assert ((saveToGCS healthy ["x"] "k" idle).1 = Ret 1%Z) as Hsaved by reflexivity.
  destruct (saved_key_is_found healthy ["x"] "k" idle Hsaved)
    as (b & p & cm & [_ Hb Hp Hm _] & _ & Hlookup).
  injection Hp as <-. injection Hm as <-.
  by rewrite Hlookup.
Defined.

(** ** What can leave the remote tier as an exception *)

Lemma saveToGCS_reached_returns env paths key bucket prefixInput cm cachePaths dir w :
  SaveReachesArchive env paths bucket prefixInput cm cachePaths dir →
  ∃ id, (saveToGCS env paths key w).1 = Ret id.
Proof.
  intros Hreach.
  rewrite (saveToGCS_reached _ _ _ _ _ _ _ _ _ Hreach), try_finally_cleanup.
  cbn [fst].
  unfold saveToGCS_try, saveToGCS_catch, checkArchive, statSize. unfold_monad.
  repeat (case_match; simplify_eq/=); eauto.
Qed.

Lemma saveToGCS_before_paths env paths key bucket prefixInput cm w :
  getInput env GCSBucket = Ret bucket →
  getInput env GCSPathPrefix = Ret prefixInput →
  getCompressionMethod env = Ret cm →
  (newStorage env = Ret tt ∧ bucketExists env bucket = Ret true) ∨
  (saveToGCS env paths key w).1 = Ret (-1)%Z.
Proof.
  intros Hb Hp Hm.
  destruct (newStorage env) as [[]|e] eqn:Hc.
  - destruct (bucketExists env bucket) as [[|]|e] eqn:He; [by left | |];
      right; unfold saveToGCS; run_step; rewrite Hc; run_step; rewrite Hb;
      run_step; rewrite Hp; run_step; rewrite Hm; run_step; by rewrite He.
  - right. unfold saveToGCS. run_step. by rewrite Hc.
Qed.

(** X10.  The remote tiers turn the failures of the storage client, of
    the bucket and object probes, of the listing, of download, upload,
    tar, stat, directory creation and unlink into their failure value.
    Once the two inputs and the compression method can be read and the
    temporary directory can be created, a remote restore never throws; a
    remote save then throws only when the path patterns cannot be resolved
    or resolve to nothing, and in the second case the exception is the
    path validation error. *)
Theorem remote_tier_rarely_throws env paths key primaryKey restoreKeys options w
    bucket prefixInput cm dir :
  getInput env GCSBucket = Ret bucket →
  getInput env GCSPathPrefix = Ret prefixInput →
  getCompressionMethod env = Ret cm →
  createTempDirectory env = Ret dir →
  (∃ result,
     (restoreFromGCS env paths primaryKey restoreKeys options w).1 = Ret result) ∧
  (∀ e, (saveToGCS env paths key w).1 = Throw e →
        resolvePaths env paths = Throw e ∨
        (resolvePaths env paths = Ret [] ∧ e = validationError)) ∧
  (∀ cachePaths,
     resolvePaths env paths = Ret cachePaths → cachePaths ≠ [] →
     ∃ id, (saveToGCS env paths key w).1 = Ret id).
Proof.
  intros Hb Hp Hm Hd. split_and!.
  - unfold restoreFromGCS. run_step.
    destruct (newStorage env) as [[]|e0]; [| run_step; by eexists].
    run_step. rewrite Hb. run_step. rewrite Hp. run_step. rewrite Hm.
    run_step.
    destruct (bucketExists env bucket) as [[|]|e0]; [| by eexists | by eexists].
    run_step. run_step. rewrite Hd. run_step.
    destruct (firstExisting env bucket (or_else prefixInput DEFAULT_PATH_PREFIX) cm
                (primaryKey :: default [] restoreKeys)) as [o|]; [| by eexists].
    destruct (String.eqb o EmptyString); [by eexists |].
    destruct (lookupOnly_set options); [by eexists |].
    rewrite try_finally_cleanup. cbn [fst].
    match goal with
    | |- context [try_catch (restoreFromGCS_try _ _ _ _ _ ?ap) _ ?w0] =>
        destruct (restoreFromGCS_try_result env paths bucket o cm ap w0)
          as [E | E]; rewrite E; by eexists
    end.
  - intros e Hthrow.
    destruct (saveToGCS_before_paths env paths key bucket prefixInput cm w Hb Hp Hm)
      as [[Hc He] | E]; [| rewrite E in Hthrow; discriminate].
    assert (TierReady env bucket prefixInput cm) as Hready by (by split).
    destruct (resolvePaths env paths) as [[|c cps]|e1] eqn:Hr.
    + right. split; [done |].
      rewrite (saveToGCS_empty_paths _ _ _ bucket prefixInput cm) in Hthrow by done.
      by injection Hthrow.
    + destruct (saveToGCS_reached_returns env paths key bucket prefixInput cm
                  (c :: cps) dir w) as (id & Hid); [by split |].
      rewrite Hid in Hthrow. discriminate.
    + left. f_equal. revert Hthrow. unfold saveToGCS.
      run_step. rewrite Hc. run_step. rewrite Hb. run_step. rewrite Hp.
      run_step. rewrite Hm. run_step. rewrite He. run_step. rewrite Hr.
      by intros [= ->].
  - intros cps Hr Hn.
    destruct (saveToGCS_before_paths env paths key bucket prefixInput cm w Hb Hp Hm)
      as [[Hc He] | E]; [| by eexists].
    by apply (saveToGCS_reached_returns _ _ _ bucket prefixInput cm cps dir).
Qed.

Lemma remote_tier_rarely_throws_witness :
  (∃ result, (restoreFromGCS busyArchive ["x"] "k" None None idle).1 = Ret result) ∧
  (saveToGCS emptyPaths ["nothing"] "k" idle).1 = Throw validationError ∧
  (∃ id, (saveToGCS busyArchive ["x"] "k" idle).1 = Ret id).
Proof.
  pose proof (remote_tier_rarely_throws busyArchive ["x"] "k" "k" None None idle
                "cache-bucket" EmptyString Zstd "/tmp/a1"
                eq_refl eq_refl eq_refl eq_refl) as (Hr & _ & Hs).
  pose proof (remote_tier_rarely_throws emptyPaths ["nothing"] "k" "k" None None idle
                "cache-bucket" EmptyString Zstd "/tmp/a1"
                eq_refl eq_refl eq_refl eq_refl) as (_ & Ht & _).
  split_and!.
  - exact Hr.
  - destruct (saveToGCS emptyPaths ["nothing"] "k" idle).1 as [id|e] eqn:E;
      [discriminate E |].
    destruct (Ht e eq_refl) as [Hx | [_ ->]]; [discriminate Hx | reflexivity].
  - apply (Hs ["x"]); [reflexivity | discriminate].
Defined.

(** ** Strings *)

Lemma trimStart_length s : (String.length (trimStart s) ≤ String.length s)%nat.
Proof.
  induction s as [|c s IH]; [done |]. simpl.
  destruct (isWhiteSpace c); simpl; lia.
Qed.

Lemma trimStart_fixed c s :
  trimStart (String c s) = String c s ↔ isWhiteSpace c = false.
Proof.
  simpl. destruct (isWhiteSpace c); [| done]. split; [| done].
  intros H. pose proof (trimStart_length s) as L. rewrite H in L. simpl in L. lia.
Qed.

Lemma trimStart_idem s : trimStart (trimStart s) = trimStart s.
Proof.
  induction s as [|c s IH]; [done |]. simpl.
  destruct (isWhiteSpace c) eqn:E; [done |]. simpl. by rewrite E.
Qed.

Lemma trimEnd_idem s : trimEnd (trimEnd s) = trimEnd s.
Proof.
  induction s as [|c s IH]; [done |]. cbn [trimEnd].
  destruct (trimEnd s) as [|d t] eqn:E.
  - destruct (isWhiteSpace c) eqn:W; [done |]. cbn [trimEnd]. by rewrite W.
  - cbn [trimEnd] in *. by rewrite IH.
Qed.

Lemma trimEnd_head c s :
  isWhiteSpace c = false → ∃ t, trimEnd (String c s) = String c t.
Proof.
  intros W. cbn [trimEnd]. destruct (trimEnd s); rewrite ?W; eauto.
Qed.

Lemma trimStart_trimEnd s : trimStart s = s → trimStart (trimEnd s) = trimEnd s.
Proof.
  destruct s as [|c s]; [done |]. intros H. apply trimStart_fixed in H.
  destruct (trimEnd_head c s H) as (t & ->). by apply trimStart_fixed.
Qed.

Lemma trim_idem s : trim (trim s) = trim s.
Proof.
  unfold trim. rewrite (trimStart_trimEnd (trimStart s)) by apply trimStart_idem.
  apply trimEnd_idem.
Qed.

Lemma mentions_trimStart c s : mentions c s = false → mentions c (trimStart s) = false.
Proof.
  induction s as [|d s IH]; [done |]. simpl. intros H.
  apply orb_false_iff in H as [H1 H2].
  destruct (isWhiteSpace d); [by apply IH |]. simpl. by rewrite H1, H2.
Qed.

Lemma mentions_trimEnd c s : mentions c s = false → mentions c (trimEnd s) = false.
Proof.
  induction s as [|d s IH]; [done |]. cbn [trimEnd mentions]. intros H.
  apply orb_false_iff in H as [H1 H2]. specialize (IH H2).
  destruct (trimEnd s) as [|d' t].
  - destruct (isWhiteSpace d); [done |]. simpl. by rewrite H1.
  - cbn [mentions] in *. by rewrite H1, IH.
Qed.

Lemma mentions_replaceLeadingBang c s :
  mentions c s = false → mentions c (replaceLeadingBang s) = false.
Proof.
  destruct s as [|b [|d rest]]; [done | done |]. unfold replaceLeadingBang.
  destruct (Ascii.eqb b BANG && isWhiteSpace d) eqn:E; [| done].
  apply andb_true_iff in E as [Eb _]. apply Ascii.eqb_eq in Eb as ->.
  cbn [mentions]. intros H.
  apply orb_false_iff in H as [H1 H2]. apply orb_false_iff in H2 as [_ H3].
  rewrite H1. by apply mentions_trimStart.
Qed.

Lemma split_pieces sep s : Forall (λ p, mentions sep p = false) (split sep s).
Proof.
  induction s as [|c s IH]; [by repeat constructor |]. cbn [split].
  destruct (Ascii.eqb c sep) eqn:E; [by constructor |].
  destruct (split sep s) as [|p ps]; [by repeat constructor; simpl; rewrite E |].
  inversion IH as [|? ? Hp Hps]; subst. constructor; [| done].
  simpl. by rewrite E, Hp.
Qed.

Lemma split_whole sep s : mentions sep s = false → split sep s = [s].
Proof.
  induction s as [|c s IH]; [done |]. cbn [mentions split]. intros H.
  apply orb_false_iff in H as [H1 H2]. by rewrite H1, (IH H2).
Qed.

Lemma split_app sep s rest :
  mentions sep s = false →
  split sep (s +:+ String sep rest) = s :: split sep rest.
Proof.
  induction s as [|c s IH]; intros H.
  - change (EmptyString +:+ String sep rest) with (String sep rest).
    cbn [split]. by rewrite Ascii.eqb_refl.
  - change (String c s +:+ String sep rest) with (String c (s +:+ String sep rest)).
    cbn [mentions] in H. apply orb_false_iff in H as [H1 H2].
    cbn [split]. by rewrite H1, (IH H2).
Qed.

Lemma split_concat sep entries :
  Forall (λ e, mentions sep e = false) entries → entries ≠ [] →
  split sep (String.concat (String sep EmptyString) entries) = entries.
Proof.
  induction 1 as [|e entries He _ IH]; [done |]. intros _.
  destruct entries as [|e' entries].
  - by apply split_whole.
  - change (String.concat (String sep EmptyString) (e :: e' :: entries))
      with (e +:+ String sep (String.concat (String sep EmptyString) (e' :: entries))).
    rewrite split_app by done. f_equal. by apply IH.
Qed.

(** ** [getInputAsArray] *)

(** X11.  Every entry [getInputAsArray] returns is a line of the input
    made clean: it is not empty, it has no white space at either end
    (a carriage return before the line feed included) and it contains no
    line feed.  Blank lines give no entry, so an input of blank lines
    only gives the empty list. *)
Theorem getInputAsArray_entries_trimmed value :
  Forall (λ e, e ≠ EmptyString ∧ trim e = e ∧ mentions LF e = false)
    (getInputAsArray_value value) ∧
  (Forall (λ line, trim line = EmptyString) (split LF value) →
   getInputAsArray_value value = []).
Proof.
  unfold getInputAsArray_value. split.
  - pose proof (split_pieces LF value) as Hlines.
    induction Hlines as [|line lines Hline _ IH]; [constructor |].
    cbn [map List.filter].
    destruct (String.eqb (trim (replaceLeadingBang line)) EmptyString) eqn:E;
      [done |].
    cbn [negb]. constructor; [| done]. split_and!.
    + by apply String.eqb_neq.
    + apply trim_idem.
    + by apply mentions_trimEnd, mentions_trimStart, mentions_replaceLeadingBang.
  - induction 1 as [|line lines Hline _ IH]; [done |].
    cbn [map List.filter].
    assert (trim (replaceLeadingBang line) = EmptyString) as ->; [| done].
    destruct line as [|b [|d rest]]; [done | done |].
    unfold replaceLeadingBang.
    destruct (Ascii.eqb b BANG && isWhiteSpace d) eqn:E; [| done].
    apply andb_true_iff in E as [Eb _]. apply Ascii.eqb_eq in Eb as ->.
    exfalso. revert Hline. unfold trim. cbn [trimStart].
    change (isWhiteSpace BANG) with false. cbv iota.
    destruct (trimEnd_head BANG (String d rest) eq_refl) as (t & ->). done.
Qed.

Lemma getInputAsArray_entries_trimmed_witness :
  getInputAsArray_value (String LF (" " +:+ String LF EmptyString)) = [].
Proof.
  apply (proj2 (getInputAsArray_entries_trimmed
                  (String LF (" " +:+ String LF EmptyString)))).
  by repeat constructor.
Defined.

(** X12.  On ASCII text [getInputAsArray] gives a multi-line input back
    line by line: when clean ASCII entries (not empty, no white space at
    either end, no line feed, no blank after a leading exclamation mark)
    are written one per line, the result is the list of these entries, in
    the same order.  The entries are required to be ASCII because it is on
    ASCII text that [trim] and [replaceLeadingBang] are the JavaScript
    [trim()] and [replace(/^!\s+/, ...)], which also strip white space
    outside ASCII. *)
Theorem getInputAsArray_of_lines entries :
  Forall (λ e, asciiText e = true) entries →
  Forall cleanEntry entries →
  getInputAsArray_value (String.concat (String LF EmptyString) entries) = entries.
Proof.
  intros _ Hclean. unfold getInputAsArray_value.
  destruct entries as [|e entries]; [done |].
  rewrite split_concat; [| | done].
  - induction Hclean as [|x xs (Hne & Ht & _ & Hb) _ IH]; [done |].
    cbn [map List.filter]. rewrite Hb, Ht.
    apply String.eqb_neq in Hne. rewrite Hne. cbn [negb]. by rewrite IH.
  - eapply Forall_impl; [exact Hclean |]. by intros x (_ & _ & ? & _).
Qed.

Lemma getInputAsArray_of_lines_witness :
  getInputAsArray_value
    ("node_modules" +:+ String LF ("!node_modules/.cache" +:+ String LF "~/.npm"))
  = ["node_modules"; "!node_modules/.cache"; "~/.npm"].
Proof.
  apply (getInputAsArray_of_lines
           ["node_modules"; "!node_modules/.cache"; "~/.npm"]).
  - repeat constructor.
  - repeat constructor; done.
Defined.

(** ** [isGhes] and [isCacheFeatureAvailable] *)

Lemma isWhiteSpace_upper c : isWhiteSpace (upper c) = isWhiteSpace c.
Proof. by destruct c as [[] [] [] [] [] [] [] []]. Qed.

Lemma lower_upper c : AsciiCollation.lower (upper c) = AsciiCollation.lower c.
Proof. by destruct c as [[] [] [] [] [] [] [] []]. Qed.

Lemma lower_lower c :
  AsciiCollation.lower (AsciiCollation.lower c) = AsciiCollation.lower c.
Proof. by destruct c as [[] [] [] [] [] [] [] []]. Qed.

Lemma toUpperCase_app a b : toUpperCase (a +:+ b) = toUpperCase a +:+ toUpperCase b.
Proof.
  induction a as [|c a IH]; [done |].
  change (String c a +:+ b) with (String c (a +:+ b)).
  cbn [toUpperCase]. by rewrite IH.
Qed.

Lemma trimEnd_toUpperCase s : trimEnd (toUpperCase s) = toUpperCase (trimEnd s).
Proof.
  induction s as [|c s IH]; [done |]. cbn [toUpperCase trimEnd]. rewrite IH.
  destruct (trimEnd s); cbn [toUpperCase]; [| done].
  rewrite isWhiteSpace_upper. by destruct (isWhiteSpace c).
Qed.

Lemma trimEnd_app_fixed a t :
  t ≠ EmptyString → trimEnd t = t → trimEnd (a +:+ t) = a +:+ t.
Proof.
  intros Hne Ht. induction a as [|c a IH]; [done |].
  change (String c a +:+ t) with (String c (a +:+ t)).
  cbn [trimEnd]. rewrite IH.
  destruct (a +:+ t) eqn:E; [| done].
  apply (f_equal String.length) in E. rewrite string_length_app in E.
  destruct t; [done |]. simpl in E. lia.
Qed.

Lemma endsWith_app a suffix : endsWith (a +:+ suffix) suffix = true.
Proof.
  induction a as [|c a IH].
  - change (EmptyString +:+ suffix) with suffix.
    destruct suffix; cbn [endsWith]; by rewrite String.eqb_refl.
  - change (String c a +:+ suffix) with (String c (a +:+ suffix)).
    cbn [endsWith]. rewrite IH. by destruct (String.eqb _ _).
Qed.

(** X13.  [isGhes] parses [GITHUB_SERVER_URL], or [https://github.com]
    when the variable is unset or empty, and throws when it is not a URL.
    It answers [false] for the host [github.com] and for every host that
    ends in [.ghe.com] or [.localhost], in any letter case; the bare hosts
    [ghe.com] and [localhost], which have no dot before them, count as
    GHES. *)
Theorem isGhes_known_hosts rt w :
  (∀ e, urlHostname rt (serverUrl rt) = Throw e → isGhes rt w = (Throw e, w)) ∧
  (∀ hostname,
     urlHostname rt (serverUrl rt) = Ret hostname →
     toUpperCase hostname = "GITHUB.COM" ∨
     (∃ sub tail, hostname = sub +:+ tail ∧
                  (toUpperCase tail = ".GHE.COM" ∨ toUpperCase tail = ".LOCALHOST")) →
     isGhes rt w = (Ret false, w)) ∧
  (∀ hostname,
     urlHostname rt (serverUrl rt) = Ret hostname →
     toUpperCase hostname = "GHE.COM" ∨ toUpperCase hostname = "LOCALHOST" →
     isGhes rt w = (Ret true, w)).
Proof.
  unfold isGhes, new_URL_hostname, serverUrl. split_and!.
  - intros e He. unfold_monad. by rewrite He.
  - intros hostname Hh Hcase. unfold_monad. rewrite Hh.
    rewrite <- trimEnd_toUpperCase.
    destruct Hcase as [-> | (sub & tail & -> & Htail)]; [done |].
    rewrite toUpperCase_app.
    destruct Htail as [-> | ->]; rewrite trimEnd_app_fixed by done;
      rewrite endsWith_app; f_equal.
    + by rewrite andb_false_r.
    + by rewrite andb_false_r.
  - intros hostname Hh Hcase. unfold_monad. rewrite Hh.
    rewrite <- trimEnd_toUpperCase. by destruct Hcase as [-> | ->].
Qed.

Lemma isGhes_known_hosts_witness :
  isGhes (sampleRuntime (Some "https://Octo.GHE.com") EmptyString) idle =
    (Ret false, idle) ∧
  isGhes (sampleRuntime None EmptyString) idle = (Ret false, idle) ∧
  isGhes (sampleRuntime (Some "https://localhost") EmptyString) idle =
    (Ret true, idle) ∧
  isGhes (sampleRuntime (Some "github.com") EmptyString) idle =
    (Throw "Invalid URL", idle).
Proof.
  split_and!.
  - apply (proj1 (proj2 (isGhes_known_hosts _ idle)) "Octo.GHE.com");
      [reflexivity |].
    right. exists "Octo", ".GHE.com". split; [reflexivity | by left].
  - apply (proj1 (proj2 (isGhes_known_hosts _ idle)) "github.com");
      [reflexivity | by left].
  - apply (proj2 (proj2 (isGhes_known_hosts _ idle)) "localhost");
      [reflexivity | by right].
  - by apply (proj1 (isGhes_known_hosts _ idle)).
Defined.

(** X14.  The two availability tests agree on when they consult the
    local cache service.  With the bucket input set (whether or not the
    bucket exists) [isFeatureAvailable] of [gcsCache.ts] and
    [isCacheFeatureAvailable] of [actionUtils.ts] both answer [true]
    without calling [cache.isFeatureAvailable()], so nothing that call
    might throw reaches the caller.  With no bucket input both make that
    call exactly once and nothing guards it: [isFeatureAvailable] returns
    or throws whatever it returns or throws; [isCacheFeatureAvailable]
    throws what it throws, answers [true] when it answers [true] (without
    consulting the server URL), and when it answers [false] parses the
    server URL and answers [false], or throws the parser's error. *)
Theorem availability_tests_agree rt env w :
  (configured env = true →
   isFeatureAvailable env w = (Ret true, w) ∧
   isCacheFeatureAvailable rt env w = (Ret true, w)) ∧
  (configured env = false →
   let called := record ELocalIsFeatureAvailable w in
   isFeatureAvailable env w = (localIsFeatureAvailable env, called) ∧
   isCacheFeatureAvailable rt env w =
     (match localIsFeatureAvailable env with
      | Ret true => Ret true
      | Ret false =>
          match urlHostname rt (serverUrl rt) with
          | Ret _ => Ret false
          | Throw e => Throw e
          end
      | Throw e => Throw e
      end, called)).
Proof.
  unfold isFeatureAvailable, isCacheFeatureAvailable, cache_isFeatureAvailable.
  rewrite !(bind_run _ _ _ (configured env)) by (by rewrite isGCSAvailable_run).
  rewrite isGCSAvailable_run. cbn [snd].
  split; intros ->; [done |]. cbv zeta. split; [done |].
  rewrite bind_call.
  destruct (localIsFeatureAvailable env) as [[|]|e]; [done | | done].
  unfold isGhes, new_URL_hostname, logWarning, core_info, serverUrl. unfold_monad.
  destruct (urlHostname rt _) as [h|e]; [| done].
  by repeat case_match.
Qed.

Lemma availability_tests_agree_witness :
  isFeatureAvailable (withLocalAvailability (Throw "Invalid URL") missingBucket)
    idle = (Ret true, idle) ∧
  isFeatureAvailable (withLocalAvailability (Throw "Invalid URL") unset) idle =
    (Throw "Invalid URL", record ELocalIsFeatureAvailable idle) ∧
  isCacheFeatureAvailable (sampleRuntime (Some "not a url") EmptyString)
    (withLocalAvailability (Ret false) unset) idle =
    (Throw "Invalid URL", record ELocalIsFeatureAvailable idle).
Proof.
  split_and!.
  - by apply (proj1 (availability_tests_agree
                       (sampleRuntime None EmptyString)
                       (withLocalAvailability (Throw "Invalid URL") missingBucket)
                       idle)).
  - by apply (proj2 (availability_tests_agree
                       (sampleRuntime None EmptyString)
                       (withLocalAvailability (Throw "Invalid URL") unset)
                       idle)).
  - refine (proj2 (proj2 (availability_tests_agree
                            (sampleRuntime (Some "not a url") EmptyString)
                            (withLocalAvailability (Ret false) unset)
                            idle) _)).
    reflexivity.
Defined.

(** ** [getInputAsBool] *)

Lemma toLowerCase_toUpperCase s : toLowerCase (toUpperCase s) = toLowerCase s.
Proof.
  unfold toLowerCase. induction s as [|c s IH]; [done |].
  cbn [toUpperCase AsciiCollation.foldCase]. by rewrite lower_upper, IH.
Qed.

Lemma toLowerCase_idem s : toLowerCase (toLowerCase s) = toLowerCase s.
Proof.
  unfold toLowerCase. induction s as [|c s IH]; [done |].
  cbn [AsciiCollation.foldCase]. by rewrite lower_lower, IH.
Qed.

Lemma toLowerCase_length s : String.length (toLowerCase s) = String.length s.
Proof.
  unfold toLowerCase. induction s as [|c s IH]; [done |]. simpl. by rewrite IH.
Qed.

(** X15.  [getInputAsBool] looks at the letters of the value only up to
    their case: a value and its upper-case and lower-case spellings give
    the same answer.  It answers [true] for the four letters of "true"
    and nothing else, so any value that is not four characters long (an
    empty value, "1", "yes", a padded " true") is [false]. *)
Theorem getInputAsBool_ignores_case value :
  getInputAsBool_value (toUpperCase value) = getInputAsBool_value value ∧
  getInputAsBool_value (toLowerCase value) = getInputAsBool_value value ∧
  (String.length value ≠ 4%nat → getInputAsBool_value value = false).
Proof.
  unfold getInputAsBool_value. split_and!.
  - by rewrite toLowerCase_toUpperCase.
  - by rewrite toLowerCase_idem.
  - intros Hlen. apply String.eqb_neq. intros H.
    apply (f_equal String.length) in H. rewrite toLowerCase_length in H.
    by apply Hlen.
Qed.

Lemma getInputAsBool_ignores_case_witness :
  getInputAsBool_value "TRUE" = getInputAsBool_value "true" ∧
  getInputAsBool_value " true" = false.
Proof.
  split.
  - exact (proj1 (getInputAsBool_ignores_case "true")).
  - apply (proj2 (proj2 (getInputAsBool_ignores_case " true"))). discriminate.
Defined.

(** ** Which objects are touched *)

(** X16.  The remote tier matches keys whole, never by prefix.  Against
    a store that holds only the object saved under [saved], the resolver
    finds nothing for a key list that does not contain [saved] itself,
    whatever else the list contains, proper prefixes of [saved] included;
    and two stores that answer alike on the candidate paths of the list
    give the same result, whatever other objects they hold. *)
Theorem resolver_matches_whole_keys env storage bucket pathPrefix cm keys w :
  let path := λ key, getGCSPath env pathPrefix key cm in
  (∀ saved,
     (∀ object, present env bucket object = true ↔ object = path saved) →
     saved ∉ keys →
     (findFileOnGCS env storage bucket pathPrefix keys cm w).1 = Ret None) ∧
  (∀ env' w',
     getCacheFileName env' = getCacheFileName env →
     Forall (λ k, fileExists env' bucket (path k) = fileExists env bucket (path k))
       keys →
     (findFileOnGCS env' storage bucket pathPrefix keys cm w').1 =
     (findFileOnGCS env storage bucket pathPrefix keys cm w).1).
Proof.
  intros path. subst path. cbv beta. split.
  - intros saved Honly Hout. rewrite findFileOnGCS_result. f_equal.
    apply firstExisting_None. apply Forall_forall. intros k Hk Hex.
    assert (present env bucket (getGCSPath env pathPrefix k cm) = true) as Hp
      by (unfold present; by rewrite Hex).
    apply Honly, getGCSPath_inj in Hp. by subst k.
  - intros env' w' Hname Hsame. rewrite !findFileOnGCS_result. f_equal.
    unfold firstExisting.
    induction Hsame as [|k keys Hk _ IH]; [done |]. cbn [map List.find].
    assert (getGCSPath env' pathPrefix k cm = getGCSPath env pathPrefix k cm) as Hpath
      by (unfold getGCSPath; by rewrite Hname).
    rewrite Hpath.
    assert (present env' bucket (getGCSPath env pathPrefix k cm) =
            present env bucket (getGCSPath env pathPrefix k cm)) as ->
      by (unfold present; cbv beta in Hk; by rewrite Hk).
    by rewrite IH.
Qed.

Lemma resolver_matches_whole_keys_witness :
  (findFileOnGCS onlySecond StorageClient "cache-bucket" "github-cache"
     ["k"; "k2-linux"] Zstd idle).1 = Ret None.
Proof.
  refine (proj1 (resolver_matches_whole_keys onlySecond StorageClient "cache-bucket"
                   "github-cache" Zstd ["k"; "k2-linux"] idle) "k2" _ _).
  - intros object. apply holding_only.
  - rewrite !not_elem_of_cons. split_and!; [discriminate | discriminate |].
    apply not_elem_of_nil.
Defined.

Lemma emits_bind_returns {A B} (P : Event → Prop) (Q : A → Prop)
    (m : M A) (k : A → M B) :
  emits P m → returns Q m → (∀ a, Q a → emits P (k a)) → emits P (bind m k).
Proof.
  intros Hm Hq Hk w. unfold bind.
  destruct (Hm w) as (n1 & E1 & F1). specialize (Hq w).
  destruct (m w) as [[a|e] w1]; simpl in *; [| by exists n1].
  destruct (Hk a (Hq a eq_refl) w1) as (n2 & E2 & F2). exists (n2 ++ n1).
  rewrite E2, E1, (assoc_L (++)). split; [done | by apply Forall_app].
Qed.

Lemma returns_getInput env name :
  returns (λ v, getInput env name = Ret v) (core_getInput env name).
Proof. by intros w a. Qed.

Lemma returns_call {A} e (r : outcome A) : returns (λ v, r = Ret v) (call e r).
Proof. by intros w a. Qed.

Lemma returns_findFileOnGCS env storage bucket pathPrefix keys cm :
  returns (λ r, r = firstExisting env bucket pathPrefix cm keys)
    (findFileOnGCS env storage bucket pathPrefix keys cm).
Proof. intros w a. rewrite findFileOnGCS_result. by intros [= ->]. Qed.

(** X17.  A save never writes to another key's object.  Whatever the
    configuration and the answers of the collaborators, every upload
    [saveCache] makes for [key] goes to the configured bucket, takes the
    temporary archive as its source, has the object path of [key] under
    the configured prefix as its destination, and carries [key] and the
    creator name in its metadata. *)
Theorem save_uploads_only_its_key env paths key options x :
  emits (uploads_only env key) (saveCache env paths key options x).
Proof.
  unfold saveCache.
  apply emits_bind; [apply isGCSAvailable_emits |]. intros available.
  apply emits_bind; [| intros [r|]; effects].
  destruct available; [| effects].
  apply emits_try_catch; [| intros e; effects].
  apply emits_bind; [| intros r; effects].
  unfold saveToGCS.
  apply emits_bind; [by apply getGCSClient_emits |]. intros [s|]; [| effects].
  eapply emits_bind_returns; [effects | apply returns_getInput |].
  intros bucket Hb.
  eapply emits_bind_returns; [effects | apply returns_getInput |].
  intros prefixInput Hp.
  eapply emits_bind_returns; [effects | apply returns_call |].
  intros cm Hm.
  apply emits_bind; [by apply verifyBucket_emits |]. intros [r|]; [effects |].
  apply emits_bind; [effects |]. intros cachePaths.
  case_match; [effects |].
  eapply emits_bind_returns; [effects | apply returns_call |].
  intros dir Hd.
  apply emits_try_finally; [| unfold cleanupArchive; effects].
  apply emits_try_catch; [| intros e; unfold saveToGCS_catch; effects].
  unfold saveToGCS_try.
  do 2 (apply emits_bind; [effects |]; intros ?).
  apply emits_bind; [by apply checkArchive_emits |]. intros [r|]; [effects |].
  apply emits_bind; [| intros ?; effects].
  apply emits_call. split_and!; try done.
  by exists prefixInput, cm, dir.
Qed.

(** X18.  A restore never fetches an object it was not asked for.
    Whatever the configuration and the answers of the collaborators, every
    download [restoreCache] makes is from the configured bucket, of the
    object path of one of the candidate keys (the primary key or a restore
    key) under the configured prefix, an object whose probe answered
    [true], and into the temporary archive path. *)
Theorem restore_downloads_only_a_candidate env paths primaryKey restoreKeys
    options x :
  emits (downloads_only env (primaryKey :: default [] restoreKeys))
    (restoreCache env paths primaryKey restoreKeys options x).
Proof.
  unfold restoreCache.
  apply emits_bind; [apply isGCSAvailable_emits |]. intros available.
  apply emits_bind; [| intros [r|]; effects].
  destruct available; [| effects].
  apply emits_try_catch; [| intros e; effects].
  apply emits_bind; [| intros r; effects].
  unfold restoreFromGCS.
  apply emits_bind; [by apply getGCSClient_emits |]. intros [s|]; [| effects].
  eapply emits_bind_returns; [effects | apply returns_getInput |].
  intros bucket Hb.
  eapply emits_bind_returns; [effects | apply returns_getInput |].
  intros prefixInput Hp.
  eapply emits_bind_returns; [effects | apply returns_call |].
  intros cm Hm.
  apply emits_bind; [by apply verifyBucket_emits |]. intros [r|]; [effects |].
  apply emits_bind; [by apply ensureDirectories_emits |]. intros _.
  eapply emits_bind_returns; [effects | apply returns_call |].
  intros dir Hd.
  eapply emits_bind_returns;
    [by apply findFileOnGCS_emits | apply returns_findFileOnGCS |].
  intros found Hfound. destruct found as [o|]; [| effects].
  do 2 (case_match; [effects |]).
  symmetry in Hfound. apply firstExisting_Some in Hfound as (k & Hk & -> & Hpresent).
  apply emits_try_finally; [| unfold cleanupArchive; effects].
  apply emits_try_catch; [| intros e; unfold restoreFromGCS_catch; effects].
  unfold restoreFromGCS_try.
  apply emits_bind.
  { apply emits_call_writing. split_and!; [done | |].
    - unfold present in Hpresent. by destruct (fileExists env bucket _) as [[|]|].
    - by exists prefixInput, cm, dir, k. }
  intros _.
  apply emits_bind; [by apply checkArchive_emits |]. intros [r|]; [effects |].
  do 3 (apply emits_bind; [effects |]; intros ?).
  apply emits_bind; [by apply verifyExtraction_emits |]. intros ?. effects.
Qed.

(** ** The files a remote tier names *)

(** X19.  A remote tier never stats, lists, extracts or removes a file
    other than its own archive.  Whatever the configuration and the
    answers of the collaborators, every [statSync], [listTar],
    [extractTar] and [unlinkFile] call of [saveToGCS] and of
    [restoreFromGCS] names the cache file inside the temporary directory
    the tier created, with the tier's compression method, and [createTar]
    is handed that directory and that compression method. *)
Theorem remote_tier_names_only_its_archive env paths key primaryKey restoreKeys
    options :
  emits (names_archive env) (saveToGCS env paths key) ∧
  emits (names_archive env) (restoreFromGCS env paths primaryKey restoreKeys options).
Proof.
  split.
  - unfold saveToGCS.
    apply emits_bind; [by apply getGCSClient_emits |]. intros [s|]; [| effects].
    do 2 (apply emits_bind; [effects |]; intros ?).
    eapply emits_bind_returns; [effects | apply returns_call |].
    intros cm Hm.
    apply emits_bind; [by apply verifyBucket_emits |]. intros [r|]; [effects |].
    apply emits_bind; [effects |]. intros cachePaths.
    case_match; [effects |].
    eapply emits_bind_returns; [effects | apply returns_call |].
    intros dir Hd.
    assert (∃ dir' cm',
              createTempDirectory env = Ret dir' ∧ getCompressionMethod env = Ret cm' ∧
              pathJoin env dir (getCacheFileName env cm) = archivePathIn env dir' cm')
      as Hfile by (by exists dir, cm).
    assert (∃ dir',
              createTempDirectory env = Ret dir' ∧ getCompressionMethod env = Ret cm ∧
              pathJoin env dir (getCacheFileName env cm) = archivePathIn env dir' cm)
      as Harchive by (by exists dir).
    apply emits_try_finally; [| unfold cleanupArchive; effects].
    apply emits_try_catch; [| intros e; unfold saveToGCS_catch; effects].
    unfold saveToGCS_try.
    apply emits_bind; [by apply emits_call_writing |]. intros _.
    apply emits_bind; [by apply emits_call |]. intros _.
    apply emits_bind; [by apply checkArchive_emits |]. intros [r|]; effects.
  - unfold restoreFromGCS.
    apply emits_bind; [by apply getGCSClient_emits |]. intros [s|]; [| effects].
    do 2 (apply emits_bind; [effects |]; intros ?).
    eapply emits_bind_returns; [effects | apply returns_call |].
    intros cm Hm.
    apply emits_bind; [by apply verifyBucket_emits |]. intros [r|]; [effects |].
    apply emits_bind; [by apply ensureDirectories_emits |]. intros _.
    eapply emits_bind_returns; [effects | apply returns_call |].
    intros dir Hd.
    assert (∃ dir' cm',
              createTempDirectory env = Ret dir' ∧ getCompressionMethod env = Ret cm' ∧
              pathJoin env dir (getCacheFileName env cm) = archivePathIn env dir' cm')
      as Hfile by (by exists dir, cm).
    assert (∃ dir',
              createTempDirectory env = Ret dir' ∧ getCompressionMethod env = Ret cm ∧
              pathJoin env dir (getCacheFileName env cm) = archivePathIn env dir' cm)
      as Harchive by (by exists dir).
    apply emits_bind; [by apply findFileOnGCS_emits |]. intros [o|]; [| effects].
    do 2 (case_match; [effects |]).
    apply emits_try_finally; [| unfold cleanupArchive; effects].
    apply emits_try_catch; [| intros e; unfold restoreFromGCS_catch; effects].
    unfold restoreFromGCS_try.
    apply emits_bind; [by apply emits_call_writing |]. intros _.
    apply emits_bind; [by apply checkArchive_emits |]. intros [r|]; [effects |].
    apply emits_bind; [by apply emits_call |]. intros _.
    apply emits_bind; [by apply emits_statSize |]. intros _.
    apply emits_bind; [by apply emits_call |]. intros _.
    apply emits_bind; [by apply verifyExtraction_emits |]. intros ?. effects.
Qed.

(** ** An archive that is not there *)

Lemma saveToGCS_try_missing env bucket pathPrefix key cm dir archivePath cachePaths w :
  leaves (createTar env dir cachePaths cm) = None →
  tmpfs w !! archivePath = None →
  (try_catch
     (saveToGCS_try env bucket pathPrefix key cm dir archivePath cachePaths)
     saveToGCS_catch w).1 = Ret (-1)%Z.
Proof.
  intros Hz Hfree. unfold saveToGCS_try, saveToGCS_catch, checkArchive, statSize.
  unfold_monad. rewrite Hz.
  destruct (completion (createTar env dir cachePaths cm)) as [[]|e]; [| done].
  destruct (listTar env archivePath cm) as [[]|e]; [| done].
  cbn [record tmpfs trace]. by rewrite Hfree.
Qed.

Lemma restoreFromGCS_try_missing env paths bucket gcsPath cm archivePath w :
  leaves (download env bucket gcsPath archivePath) = None →
  tmpfs w !! archivePath = None →
  (try_catch
     (restoreFromGCS_try env paths bucket gcsPath cm archivePath)
     restoreFromGCS_catch w).1 = Ret None.
Proof.
  intros Hz Hfree. unfold restoreFromGCS_try, restoreFromGCS_catch, checkArchive,
    statSize.
  unfold_monad. rewrite Hz.
  destruct (completion (download env bucket gcsPath archivePath)) as [[]|e];
    [| done].
  cbn [record tmpfs trace]. by rewrite Hfree.
Qed.

(** X20.  An archive that is not there is treated like an empty one.
    When archiving, or the download, leaves no file at the archive path
    (and none was there before), the size check fails: a remote save
    returns [-1] and a remote restore returns [undefined], even if the
    archiving or the download itself reported no error. *)
Theorem missing_archive_fails env paths key primaryKey restoreKeys options w :
  (∀ bucket prefixInput cm cachePaths dir,
     SaveReachesArchive env paths bucket prefixInput cm cachePaths dir →
     leaves (createTar env dir cachePaths cm) = None →
     tmpfs w !! archivePathIn env dir cm = None →
     (saveToGCS env paths key w).1 = Ret (-1)%Z) ∧
  (∀ bucket prefixInput cm dir gcsPath,
     RestoreReachesDownload env primaryKey restoreKeys options bucket prefixInput
       cm dir gcsPath →
     leaves (download env bucket gcsPath (archivePathIn env dir cm)) = None →
     tmpfs w !! archivePathIn env dir cm = None →
     (restoreFromGCS env paths primaryKey restoreKeys options w).1 = Ret None).
Proof.
  split.
  - intros bucket prefixInput cm cachePaths dir Hreach Hz Hfree.
    rewrite (saveToGCS_reached _ _ _ _ _ _ _ _ _ Hreach), try_finally_cleanup.
    by apply saveToGCS_try_missing.
  - intros bucket prefixInput cm dir gcsPath Hreach Hz Hfree.
    rewrite (restoreFromGCS_reached _ _ _ _ _ _ _ _ _ _ _ Hreach),
      try_finally_cleanup.
    apply restoreFromGCS_try_missing; [done |].
    by rewrite restoreResolved_keeps.
Qed.

Lemma missing_archive_fails_witness :
  (saveToGCS tarLeavesNothing ["x"] "k" idle).1 = Ret (-1)%Z ∧
  (restoreFromGCS downloadLeavesNothing ["x"] "k" None None idle).1 = Ret None.
Proof.
  split.
  - refine (proj1 (missing_archive_fails tarLeavesNothing ["x"] "k" "k" None None idle)
              "cache-bucket" EmptyString Zstd ["x"] "/tmp/a1" _ _ _).
    + by repeat split.
    + reflexivity.
    + apply lookup_empty.
  - refine (proj2 (missing_archive_fails downloadLeavesNothing ["x"] "k" "k" None None
                     idle)
              "cache-bucket" EmptyString Zstd "/tmp/a1" "github-cache/k.cache.tzst"
              _ _ _).
    + by repeat split.
    + reflexivity.
    + apply lookup_empty.
Defined.
